(** * QR code generator worker: a shallow embedding of [src/index.ts]

    The worker is one request handler, [fetch], and two helpers,
    [isValidHexColor] and [generateSVG].  The QR encoder itself
    ([qrcode-generator]) is an external collaborator and enters the
    development as a section variable.

    Conventions of the embedding:
    - a JavaScript string is a Rocq [string] holding its UTF-8 bytes (query
      values are well-formed Unicode, every literal of the source is ASCII);
    - a JavaScript number is a [Number]: a binary64 value, written as the
      rational it denotes, or one of the special values; every arithmetic
      operation rounds its exact result to nearest, ties to even;
    - [url.searchParams] is the association list of the query pairs;
    - a call that may throw returns in the monad [M], which also records the
      calls made to the encoder and to the renderer. *)

From Stdlib Require Import ZArith QArith Qround Qpower Qreduction Lia Lqa.
From Stdlib Require Import Bool List String Ascii DecimalString SpecFloat.
Import ListNotations.

Local Open Scope Z_scope.

(** ** JavaScript numbers *)

Module JsNumber.

(** A binary64 value.  [Fin q] is the finite double whose value is the
    rational [q]; the sign of zero is not kept (no operation of the worker
    can tell [-0] from [+0]: it never divides by a negative zero and
    [-0] prints as [0]). *)
Inductive Number : Type :=
| NaN
| PInf
| NInf
| Fin (q : Q).

Definition pow2 (k : Z) : Q := (2 # 1) ^ k.

(** floor of the binary logarithm of a positive rational *)
Definition ilog2 (q : Q) : Z :=
  if Qle_bool 1 q then Z.log2 (Qfloor q) else - Z.log2_up (Qceiling (/ q)).

(** nearest integer, ties to the even one *)
Definition roundHalfEven (q : Q) : Z :=
  let f := Qfloor q in
  match (q - inject_Z f ?= 1 # 2)%Q with
  | Lt => f
  | Gt => f + 1
  | Eq => if Z.even f then f else f + 1
  end.

(** exponent of the unit in the last place of the binade of [q]: 53 bits of
    precision, subnormals below [2^-1022] *)
Definition ulpExp (q : Q) : Z := Z.max (ilog2 q) (-1022) - 52.

(** the rational a positive [q] rounds to, before the overflow test *)
Definition nearest (q : Q) : Q :=
  (inject_Z (roundHalfEven (q / pow2 (ulpExp q))) * pow2 (ulpExp q))%Q.

Definition roundPos (q : Q) : Number :=
  let r := nearest q in
  if Qle_bool (pow2 1024) r then PInf else Fin (Qred r).

Definition neg (x : Number) : Number :=
  match x with
  | NaN => NaN
  | PInf => NInf
  | NInf => PInf
  | Fin q => Fin (Qred (- q))
  end.

(** The Number value of a rational: round to nearest, ties to even. *)
Definition round (q : Q) : Number :=
  match (q ?= 0)%Q with
  | Eq => Fin 0
  | Gt => roundPos q
  | Lt => neg (roundPos (- q))
  end.

Definition ofZ (z : Z) : Number := round (inject_Z z).

(** an integer literal of the source; all are exact doubles *)
Definition lit (z : Z) : Number := Fin (inject_Z z).
Definition ofNat (n : nat) : Number := ofZ (Z.of_nat n).

Definition isNaN (x : Number) : bool :=
  match x with NaN => true | _ => false end.

(** [x < y]; false as soon as one side is [NaN] *)
Definition lt (x y : Number) : bool :=
  match x, y with
  | NaN, _ | _, NaN => false
  | _, NInf => false
  | NInf, _ => true
  | PInf, _ => false
  | Fin _, PInf => true
  | Fin a, Fin b => negb (Qle_bool b a)
  end.

(** [x <= y] *)
Definition le (x y : Number) : bool :=
  match x, y with
  | NaN, _ | _, NaN => false
  | NInf, _ => true
  | _, NInf => false
  | _, PInf => true
  | PInf, _ => false
  | Fin a, Fin b => Qle_bool a b
  end.

Definition gt (x y : Number) : bool := lt y x.


(** [x] is [+0] or above *)
Definition nonneg (x : Number) : Prop :=
  match x with Fin q => (0 <= q)%Q | PInf => True | _ => False end.

(** sign of a rational as a comparison with zero *)
Definition sgn (q : Q) : comparison := (q ?= 0)%Q.

Definition signedInf (c : comparison) : Number :=
  match c with Gt => PInf | Lt => NInf | Eq => NaN end.

Definition flip (c : comparison) : comparison :=
  match c with Gt => Lt | Lt => Gt | Eq => Eq end.

Definition add (x y : Number) : Number :=
  match x, y with
  | NaN, _ | _, NaN => NaN
  | PInf, NInf | NInf, PInf => NaN
  | PInf, _ | _, PInf => PInf
  | NInf, _ | _, NInf => NInf
  | Fin a, Fin b => round (a + b)
  end.

Definition mul (x y : Number) : Number :=
  match x, y with
  | NaN, _ | _, NaN => NaN
  | PInf, PInf | NInf, NInf => PInf
  | PInf, NInf | NInf, PInf => NInf
  | PInf, Fin b | Fin b, PInf => signedInf (sgn b)
  | NInf, Fin b | Fin b, NInf => signedInf (flip (sgn b))
  | Fin a, Fin b => round (a * b)
  end.

(** A zero divisor is taken as [+0]. *)
Definition div (x y : Number) : Number :=
  match x, y with
  | NaN, _ | _, NaN => NaN
  | PInf, PInf | PInf, NInf | NInf, PInf | NInf, NInf => NaN
  | PInf, Fin b => match sgn b with Lt => NInf | _ => PInf end
  | NInf, Fin b => match sgn b with Lt => PInf | _ => NInf end
  | Fin _, PInf | Fin _, NInf => Fin 0
  | Fin a, Fin b =>
      match sgn b with
      | Eq => signedInf (sgn a)
      | _ => round (a / b)
      end
  end.

(** *** The same numbers in the Standard Library

    [SpecFloat] specifies IEEE 754 arithmetic on sign, mantissa and
    exponent; with 53 bits of precision and [emax = 1024] it is binary64.
    [ofSpec] reads such a float as a [Number], for the comparison of the two
    arithmetics on sample operations further down. *)

Definition ofSpec (f : spec_float) : Number :=
  match f with
  | S754_zero _ => Fin 0
  | S754_infinity false => PInf
  | S754_infinity true => NInf
  | S754_nan => NaN
  | S754_finite s m e =>
      Fin (Qred ((if s then -1 else 1) * inject_Z (Z.pos m) * pow2 e))
  end.

Definition b64 (z : Z) : spec_float := binary_normalize 53 1024 z 0 false.
Definition b64add := SFadd 53 1024.
Definition b64mul := SFmul 53 1024.
Definition b64div := SFdiv 53 1024.

(** *** Number::toString, radix 10

    The digits are the shortest decimal that rounds back to the number;
    among several of that length, the one closest to it. *)

Local Open Scope string_scope.

Definition decimal (z : Z) : string :=
  NilZero.string_of_uint (N.to_uint (Z.to_N z)).

Definition pow10 (k : Z) : Q := (10 # 1) ^ k.

Fixpoint scaleDown (fuel : nat) (q : Q) (j : Z) : Z :=
  match fuel with
  | O => j
  | S f => if Qle_bool 10 q then scaleDown f (Qred (q / 10)) (j + 1) else j
  end.

Fixpoint scaleUp (fuel : nat) (q : Q) (j : Z) : Z :=
  match fuel with
  | O => j
  | S f => if Qle_bool 1 q then j else scaleUp f (Qred (q * 10)) (j - 1)
  end.

(** floor of the decimal logarithm of a positive double *)
Definition ilog10 (q : Q) : Z :=
  if Qle_bool 1 q then scaleDown 400 q 0 else scaleUp 400 q 0.

Definition roundsTo (v x : Q) : bool :=
  match round v with
  | Fin r => Qeq_bool r x
  | _ => false
  end.

(** the [k]-digit integer [s] with [s * 10^(n-k)] rounding to [x] and
    closest to it, if there is one *)
Definition shortestAt (x : Q) (n k : Z) : option Z :=
  let d := pow10 (n - k) in
  let lo := Qfloor (x / d) in
  let hi := lo + 1 in
  match roundsTo (inject_Z lo * d) x, roundsTo (inject_Z hi * d) x with
  | true, true =>
      match (x - inject_Z lo * d ?= inject_Z hi * d - x)%Q with
      | Lt => Some lo
      | Gt => Some hi
      | Eq => Some (if Z.even lo then lo else hi)
      end
  | true, false => Some lo
  | false, true => Some hi
  | false, false => None
  end.

(** [(s, n, k)] of Number::toString, searched from [k] digits upwards *)
Fixpoint shortest (fuel : nat) (x : Q) (n k : Z) : Z * Z * Z :=
  match fuel with
  | O => (Qfloor (x / pow10 (n - k)), n, k)
  | S f =>
      match shortestAt x n k with
      | Some s => if (s =? 10 ^ k)%Z then (10 ^ (k - 1), n + 1, k) else (s, n, k)
      | None => shortest f x n (k + 1)
      end
  end.

Definition zeros (n : Z) : string :=
  string_of_list_ascii (repeat "0"%char (Z.to_nat n)).

Definition digitsFrom (i len : Z) (s : string) : string :=
  substring (Z.to_nat i) (Z.to_nat len) s.

Definition toStringPos (x : Q) : string :=
  let '(s, n, k) := shortest 17 x (ilog10 x + 1) 1 in
  let ds := decimal s in
  if ((-5 <=? n) && (n <=? 21))%Z then
    if (k <=? n)%Z then ds ++ zeros (n - k)
    else if (0 <? n)%Z then digitsFrom 0 n ds ++ "." ++ digitsFrom n (k - n) ds
    else "0." ++ zeros (- n) ++ ds
  else
    let exponentSign := if (n <? 0)%Z then "-" else "+" in
    if (k =? 1)%Z then ds ++ "e" ++ exponentSign ++ decimal (Z.abs (n - 1))
    else digitsFrom 0 1 ds ++ "." ++ digitsFrom 1 (k - 1) ds
         ++ "e" ++ exponentSign ++ decimal (Z.abs (n - 1)).

Definition toString (x : Number) : string :=
  match x with
  | NaN => "NaN"
  | PInf => "Infinity"
  | NInf => "-Infinity"
  | Fin q =>
      match (q ?= 0)%Q with
      | Eq => "0"
      | Gt => toStringPos q
      | Lt => "-" ++ toStringPos (- q)
      end
  end.

End JsNumber.

(** ** JavaScript strings and the built-ins the worker calls *)

Module JsString.

Local Open Scope string_scope.

(** the double quote character, as a string *)
Definition dq : string := String "034"%char "".

Definition code (c : ascii) : Z := Z.of_N (N_of_ascii c).

Definition inRange (lo hi : Z) (c : ascii) : bool :=
  ((lo <=? code c) && (code c <=? hi))%Z.

(** [v] when it is a string other than the empty one: the values of
    [string | null] that count as true *)
Definition nonEmpty (v : option string) : option string :=
  match v with
  | Some (String c s) => Some (String c s)
  | _ => None
  end.

(** [v || d] for [v : string | null | undefined] *)
Definition orElse (v : option string) (d : string) : string :=
  match nonEmpty v with
  | Some s => s
  | None => d
  end.

(** [Array.prototype.includes] on an array of strings *)
Definition includes (xs : list string) (x : string) : bool :=
  existsb (String.eqb x) xs.

(** [String.prototype.toLowerCase].  Only the ASCII letters are mapped; the
    worker compares the result with ["svg"] and ["png"] alone, and no
    character outside ASCII lowers to one of their letters. *)
Definition lowerChar (c : ascii) : ascii :=
  if inRange 65 90 c then ascii_of_N (N_of_ascii c + 32) else c.

Fixpoint toLowerCase (s : string) : string :=
  match s with
  | "" => ""
  | String c r => String (lowerChar c) (toLowerCase r)
  end.

(** *** parseInt *)

(** Strips the leading white space and line terminators of ECMAScript:
    TAB, LF, VT, FF, CR, SP, and in UTF-8 U+00A0, U+1680, U+2000..U+200A,
    U+2028, U+2029, U+202F, U+205F, U+3000, U+FEFF. *)
Fixpoint trimStart (s : string) : string :=
  match s with
  | "" => ""
  | String c r =>
      if inRange 9 13 c || (code c =? 32)%Z then trimStart r
      else
        match r with
        | String c2 r2 =>
            if ((code c =? 194) && (code c2 =? 160))%Z then trimStart r2
            else
              match r2 with
              | String c3 r3 =>
                  if ((code c =? 225) && (code c2 =? 154) && (code c3 =? 128))%Z
                     || ((code c =? 226) && (code c2 =? 128))%Z
                         && (inRange 128 138 c3 || inRange 168 169 c3
                             || (code c3 =? 175)%Z)
                     || ((code c =? 226) && (code c2 =? 129) && (code c3 =? 159))%Z
                     || ((code c =? 227) && (code c2 =? 128) && (code c3 =? 128))%Z
                     || ((code c =? 239) && (code c2 =? 187) && (code c3 =? 191))%Z
                  then trimStart r3
                  else s
              | "" => s
              end
        | "" => s
        end
  end.

(** value of a digit in base 16, letters in either case *)
Definition hexValue (c : ascii) : option Z :=
  if inRange 48 57 c then Some (code c - 48)%Z
  else if inRange 97 102 c then Some (code c - 87)%Z
  else if inRange 65 70 c then Some (code c - 55)%Z
  else None.

Definition digitValue (radix : Z) (c : ascii) : option Z :=
  match hexValue c with
  | Some v => if (v <? radix)%Z then Some v else None
  | None => None
  end.

(** the values of the longest prefix of digits in base [radix] *)
Fixpoint digitsPrefix (radix : Z) (s : string) : list Z :=
  match s with
  | "" => []
  | String c r =>
      match digitValue radix c with
      | Some v => v :: digitsPrefix radix r
      | None => []
      end
  end.

Definition valueOf (radix : Z) (ds : list Z) : Z :=
  fold_left (fun acc d => (acc * radix + d)%Z) ds 0%Z.

(** [parseInt(input)] with no radix argument: white space, an optional
    sign, an optional [0x]/[0X] switching to base 16, then the longest run of
    digits; [NaN] when that run is empty. *)
Definition parseInt (input : string) : JsNumber.Number :=
  let s := trimStart input in
  let '(sign, s) :=
    match s with
    | String "-" r => ((-1)%Z, r)
    | String "+" r => (1%Z, r)
    | _ => (1%Z, s)
    end in
  let '(radix, s) :=
    match s with
    | String "0" (String "x" r) => (16%Z, r)
    | String "0" (String "X" r) => (16%Z, r)
    | _ => (10%Z, s)
    end in
  match digitsPrefix radix s with
  | [] => JsNumber.NaN
  | ds => JsNumber.ofZ (sign * valueOf radix ds)
  end.

(** *** encodeURIComponent and decodeURIComponent *)

(** A-Z a-z 0-9 - _ . ! ~ * ' ( ) *)
Definition isUnreserved (c : ascii) : bool :=
  inRange 65 90 c || inRange 97 122 c || inRange 48 57 c
  || existsb (fun k => (code c =? k)%Z) [45; 95; 46; 33; 126; 42; 39; 40; 41]%Z.

Definition hexDigit (upper : bool) (v : Z) : ascii :=
  if (v <? 10)%Z then ascii_of_N (Z.to_N (v + 48))
  else ascii_of_N (Z.to_N (v + (if upper then 55 else 87))).

Definition hexByte (upper : bool) (c : ascii) : string :=
  String (hexDigit upper (code c / 16)) (String (hexDigit upper (code c mod 16)) "").

(** Every byte of the UTF-8 encoding that is not unreserved becomes [%XX]. *)
Definition encodeChar (c : ascii) : string :=
  if isUnreserved c then String c "" else "%" ++ hexByte true c.

Fixpoint encodeURIComponent (s : string) : string :=
  match s with
  | "" => ""
  | String c r => encodeChar c ++ encodeURIComponent r
  end.

(** The inverse transformation; [None] stands for the URIError raised on a
    [%] that two hexadecimal digits do not follow. *)
Fixpoint decodeURIComponent (s : string) : option string :=
  match s with
  | "" => Some ""
  | String "%" (String h (String l r)) =>
      match hexValue h, hexValue l, decodeURIComponent r with
      | Some a, Some b, Some t => Some (String (ascii_of_N (Z.to_N (16 * a + b))) t)
      | _, _, _ => None
      end
  | String "%" _ => None
  | String c r =>
      match decodeURIComponent r with
      | Some t => Some (String c t)
      | None => None
      end
  end.

(** *** JSON.stringify *)

Definition escapeJSON (c : ascii) : string :=
  if (code c =? 8)%Z then "\b"
  else if (code c =? 9)%Z then "\t"
  else if (code c =? 10)%Z then "\n"
  else if (code c =? 12)%Z then "\f"
  else if (code c =? 13)%Z then "\r"
  else if (code c =? 34)%Z then "\" ++ dq
  else if (code c =? 92)%Z then "\\"
  else if (code c <? 32)%Z then "\u00" ++ hexByte false c
  else String c "".

Fixpoint escapeAll (s : string) : string :=
  match s with
  | "" => ""
  | String c r => escapeJSON c ++ escapeAll r
  end.

Definition quoteJSONString (s : string) : string := dq ++ escapeAll s ++ dq.

(** [JSON.stringify({ dataUrl })] *)
Definition stringifyDataUrl (dataUrl : string) : string :=
  "{" ++ quoteJSONString "dataUrl" ++ ":" ++ quoteJSONString dataUrl ++ "}".

End JsString.

(** ** The worker *)

Module Worker.

Import JsNumber JsString.
Local Open Scope string_scope.

(** The matrix handed back by the encoder: [qr.getModuleCount()] and
    [qr.isDark(row, col)]. *)
Record QrMatrix : Type := {
  getModuleCount : nat;
  isDark : nat -> nat -> bool
}.

(** A response: its status, its header list and its body.  The header
    list holds the names in the case they were given in; names are compared
    without regard to case. *)
Record Response : Type := {
  status : Z;
  headers : list (string * string);
  body : string
}.

(** whether a header list names [Content-Type], in any case *)
Definition hasContentType (headers : list (string * string)) : bool :=
  existsb (fun h => String.eqb (toLowerCase (fst h)) "content-type") headers.

(** [new Response(body, init)] for a body that is a string, as every body
    of the handler is.  [init.status] defaults to 200.  The header list is
    [init.headers]; when these name no Content-Type, the constructor appends
    the Content-Type of a string body, [text/plain;charset=UTF-8]. *)
Definition newResponse (body : string) (status : option Z)
    (headers : list (string * string)) : Response :=
  {| status := match status with Some s => s | None => 200 end;
     headers := if hasContentType headers then headers
                else (headers ++ [("Content-Type", "text/plain;charset=UTF-8")])%list;
     body := body |}.

(** A thrown value: an instance of [Error] with its message, or anything
    else (the text is what the value would print as). *)
Inductive Thrown : Type :=
| ThrownError (message : string)
| ThrownValue (text : string).

(** The calls of the handler to the encoder and to the renderer. *)
Inductive Event : Type :=
| CallEncoder (ecLevel : option string) (data : string)
| CallGenerateSVG.

(** A computation that may throw, with the calls it made. *)
Definition M (A : Type) : Type := (list Event * (Thrown + A))%type.

Definition ret {A} (a : A) : M A := ([], inr a).

Definition bind {A B} (m : M A) (f : A -> M B) : M B :=
  match m with
  | (t, inl e) => (t, inl e)
  | (t, inr a) => let '(t', r) := f a in (t ++ t', r)%list
  end.

(** [try { body } catch (error) { handler error }] *)
Definition tryCatch {A} (body : M A) (handler : Thrown -> M A) : M A :=
  match body with
  | (t, inl e) => let '(t', r) := handler e in (t ++ t', r)%list
  | (t, inr a) => (t, inr a)
  end.

Notation "x <- m ;; k" := (bind m (fun x => k))
  (at level 61, m at next level, right associativity).

(** [url.searchParams]: the query pairs in order. *)
Definition Request : Type := list (string * string).

(** [searchParams.get(name)]: the first value under [name], else [null]. *)
Fixpoint get (name : string) (params : Request) : option string :=
  match params with
  | [] => None
  | (k, v) :: rest => if String.eqb k name then Some v else get name rest
  end.

(** [/^[0-9A-Fa-f]{6}$/.test(color)] *)
Definition isHexDigit (c : ascii) : bool :=
  inRange 48 57 c || inRange 65 70 c || inRange 97 102 c.

Definition isValidHexColor (color : string) : bool :=
  (String.length color =? 6)%nat && forallb isHexDigit (list_ascii_of_string color).

(** the [<rect .../>] appended for one dark module *)
Definition moduleRect (x y moduleSize : Number) (fgColor : string) : string :=
  "<rect x=" ++ dq ++ toString x ++ dq
  ++ " y=" ++ dq ++ toString y ++ dq
  ++ " width=" ++ dq ++ toString moduleSize ++ dq
  ++ " height=" ++ dq ++ toString moduleSize ++ dq
  ++ " fill=" ++ dq ++ "#" ++ fgColor ++ dq ++ "/>".

Definition generateSVG (qr : QrMatrix) (size : Number) (fgColor bgColor : string)
    (borderWidth : Number) : string :=
  let moduleCount := getModuleCount qr in
  let quietZone := borderWidth in
  let moduleSize := div size (add (ofNat moduleCount) (mul (lit 2) quietZone)) in
  let svg :=
    "<svg xmlns=" ++ dq ++ "http://www.w3.org/2000/svg" ++ dq
    ++ " viewBox=" ++ dq ++ "0 0 " ++ toString size ++ " " ++ toString size ++ dq
    ++ " width=" ++ dq ++ toString size ++ dq
    ++ " height=" ++ dq ++ toString size ++ dq ++ ">" in
  let svg :=
    svg ++ "<rect width=" ++ dq ++ "100%" ++ dq ++ " height=" ++ dq ++ "100%" ++ dq
        ++ " fill=" ++ dq ++ "#" ++ bgColor ++ dq ++ "/>" in
  let svg :=
    fold_left
      (fun svg row =>
         fold_left
           (fun svg col =>
              if isDark qr row col then
                let x := mul (add (ofNat col) quietZone) moduleSize in
                let y := mul (add (ofNat row) quietZone) moduleSize in
                svg ++ moduleRect x y moduleSize fgColor
              else svg)
           (seq 0 moduleCount) svg)
      (seq 0 moduleCount) svg in
  svg ++ "</svg>".

Definition ecLevelMap : list (string * string) :=
  [("L", "L"); ("M", "M"); ("Q", "Q"); ("H", "H")].

(** [obj[key]] on an object literal given by its entries; [None] is
    [undefined].  The handler indexes [ecLevelMap] after the level has been
    checked, so the key is one of the four. *)
Definition property (key : string) (obj : list (string * string)) : option string :=
  get key obj.

Definition svgHeaders : list (string * string) :=
  [("Content-Type", "image/svg+xml");
   ("Cache-Control", "public, max-age=86400");
   ("Access-Control-Allow-Origin", "*");
   ("Access-Control-Allow-Methods", "GET");
   ("Content-Disposition", "attachment; filename=" ++ dq ++ "qrcode.svg" ++ dq)].

Definition jsonHeaders : list (string * string) :=
  [("Content-Type", "application/json");
   ("Cache-Control", "public, max-age=86400");
   ("Access-Control-Allow-Origin", "*");
   ("Access-Control-Allow-Methods", "GET")].

Section Handler.

(** [qrcode(0, ecLevel)], [addData(data)] and [make()]: the matrix, or what
    the library threw. *)
Variable qrcode : option string -> string -> Thrown + QrMatrix.

Definition encode (ecLevel : option string) (data : string) : M QrMatrix :=
  ([CallEncoder ecLevel data], qrcode ecLevel data).

Definition render (qr : QrMatrix) (size : Number) (fgColor bgColor : string)
    (borderWidth : Number) : M string :=
  ([CallGenerateSVG], inr (generateSVG qr size fgColor bgColor borderWidth)).

Definition fetch (request : Request) : M Response :=
  let qrUrl := orElse (get "url" request) "https://example.com" in
  let sizeParam := get "size" request in
  let size :=
    match nonEmpty sizeParam with
    | Some s => parseInt s
    | None => lit 300
    end in
  if isNaN size || lt size (lit 100) || gt size (lit 1000) then
    ret (newResponse "Error: Size must be between 100 and 1000" (Some 400) [])
  else
  let fgColor := orElse (get "fgColor" request) "000000" in
  let bgColor := orElse (get "bgColor" request) "FFFFFF" in
  if negb (isValidHexColor fgColor) || negb (isValidHexColor bgColor) then
    ret (newResponse "Error: Invalid color format. Use hex format without #"
           (Some 400) [])
  else
  let ecLevelParam := orElse (get "ecLevel" request) "M" in
  if negb (includes ["L"; "M"; "Q"; "H"] ecLevelParam) then
    ret (newResponse "Error: Error correction level must be L, M, Q, or H"
           (Some 400) [])
  else
  let borderWidthParam := get "borderWidth" request in
  let borderWidth :=
    match nonEmpty borderWidthParam with
    | Some s => parseInt s
    | None => lit 4
    end in
  if isNaN borderWidth || lt borderWidth (lit 0) || gt borderWidth (lit 20) then
    ret (newResponse "Error: Border width must be between 0 and 20" (Some 400) [])
  else
  let format := orElse (option_map toLowerCase (get "format" request)) "svg" in
  if negb (includes ["svg"; "png"] format) then
    ret (newResponse "Error: Format must be svg or png" (Some 400) [])
  else
  tryCatch
    (qr <- encode (property ecLevelParam ecLevelMap) qrUrl ;;
     if format =? "svg" then
       svg <- render qr size fgColor bgColor borderWidth ;;
       ret (newResponse svg None svgHeaders)
     else
       svg <- render qr size fgColor bgColor borderWidth ;;
       let dataUrl := "data:image/svg+xml;charset=UTF-8," ++ encodeURIComponent svg in
       ret (newResponse (stringifyDataUrl dataUrl) None jsonHeaders))
    (fun error =>
       let errorMessage :=
         match error with
         | ThrownError message => message
         | ThrownValue _ => "Unknown error occurred"
         end in
       ret (newResponse ("Error generating QR code: " ++ errorMessage) (Some 500) [])).

(** the response of a run that returned *)
Definition responseOf (m : M Response) : option Response :=
  match snd m with
  | inr r => Some r
  | inl _ => None
  end.

Definition calls {A} (m : M A) : list Event := fst m.

End Handler.

(** *** A test double for the encoder

    It stands in for the library where a run needs a concrete encoder:
    payloads of at most 32 bytes give a fixed 5 by 5 matrix, longer ones
    make it throw a string that tells the bits needed and the 272 bits it
    holds, as the library throws a string, not an [Error], on data that does
    not fit. *)
Definition stubMatrix : QrMatrix :=
  {| getModuleCount := 5;
     isDark := fun row col => Nat.even (row + col) |}.

Definition stubQrcode (ecLevel : option string) (data : string) : Thrown + QrMatrix :=
  if (String.length data <=? 32)%nat then inr stubMatrix
  else inl (ThrownValue
              ("code length overflow. ("
               ++ decimal (8 * Z.of_nat (String.length data) + 12) ++ ">272)")).

End Worker.

(** ** Notions the properties are stated with *)

Module Props.

Import JsNumber JsString Worker.
Local Open Scope string_scope.

(** the query parameters the handler reads *)
Definition paramNames : list string :=
  ["url"; "size"; "fgColor"; "bgColor"; "ecLevel"; "borderWidth"; "format"].

(** the value the handler works with for each of them *)
Definition textOf (r : Request) : string :=
  orElse (get "url" r) "https://example.com".

Definition sizeOf (r : Request) : Number :=
  match nonEmpty (get "size" r) with
  | Some s => parseInt s
  | None => lit 300
  end.

Definition fgColorOf (r : Request) : string := orElse (get "fgColor" r) "000000".
Definition bgColorOf (r : Request) : string := orElse (get "bgColor" r) "FFFFFF".
Definition ecLevelOf (r : Request) : string := orElse (get "ecLevel" r) "M".

Definition borderWidthOf (r : Request) : Number :=
  match nonEmpty (get "borderWidth" r) with
  | Some s => parseInt s
  | None => lit 4
  end.

Definition formatOf (r : Request) : string :=
  orElse (option_map toLowerCase (get "format" r)) "svg".

(** The five validation steps, in the order of section 4.1 of the
    specification. *)
Inductive Check : Type :=
| CheckSize
| CheckColor
| CheckEcLevel
| CheckBorderWidth
| CheckFormat.

Definition rank (c : Check) : nat :=
  match c with
  | CheckSize => 0
  | CheckColor => 1
  | CheckEcLevel => 2
  | CheckBorderWidth => 3
  | CheckFormat => 4
  end.

(** [x] is [NaN] or lies outside [[lo, hi]] *)
Definition outside (lo hi : Z) (x : Number) : bool :=
  isNaN x || lt x (lit lo) || gt x (lit hi).

Definition fails (c : Check) (r : Request) : bool :=
  match c with
  | CheckSize => outside 100 1000 (sizeOf r)
  | CheckColor =>
      negb (isValidHexColor (fgColorOf r)) || negb (isValidHexColor (bgColorOf r))
  | CheckEcLevel => negb (includes ["L"; "M"; "Q"; "H"] (ecLevelOf r))
  | CheckBorderWidth => outside 0 20 (borderWidthOf r)
  | CheckFormat => negb (includes ["svg"; "png"] (formatOf r))
  end.

(** the messages as the specification words them *)
Definition message (c : Check) : string :=
  match c with
  | CheckSize => "Size must be between 100 and 1000"
  | CheckColor => "Invalid color format. Use hex format without #"
  | CheckEcLevel => "Error correction level must be L, M, Q, or H"
  | CheckBorderWidth => "Border width must be between 0 and 20"
  | CheckFormat => "Format must be svg or png"
  end.

(** the 400 response of a failed check: no header given to the
    constructor, the message after ["Error: "] *)
Definition rejection (c : Check) : Response :=
  newResponse ("Error: " ++ message c) (Some 400) [].

Definition allPass (r : Request) : Prop := forall c, fails c r = false.

(** the request without the pairs named [name] *)
Definition without (name : string) (r : Request) : Request :=
  filter (fun kv => negb (String.eqb (fst kv) name)) r.

(** the handler once every check has passed: its [try] block, over the
    values above *)
Definition attempt (qrcode : option string -> string -> Thrown + QrMatrix)
    (r : Request) : M Response :=
  tryCatch
    (qr <- encode qrcode (property (ecLevelOf r) ecLevelMap) (textOf r) ;;
     if formatOf r =? "svg" then
       svg <- render qr (sizeOf r) (fgColorOf r) (bgColorOf r) (borderWidthOf r) ;;
       ret (newResponse svg None svgHeaders)
     else
       svg <- render qr (sizeOf r) (fgColorOf r) (bgColorOf r) (borderWidthOf r) ;;
       let dataUrl := "data:image/svg+xml;charset=UTF-8," ++ encodeURIComponent svg in
       ret (newResponse (stringifyDataUrl dataUrl) None jsonHeaders))
    (fun error =>
       let errorMessage :=
         match error with
         | ThrownError message => message
         | ThrownValue _ => "Unknown error occurred"
         end in
       ret (newResponse ("Error generating QR code: " ++ errorMessage) (Some 500) [])).

(** the parameters that carry a validation rule on their text, and the
    rule *)
Inductive TextParam : Type :=
| ParamFgColor
| ParamBgColor
| ParamEcLevel
| ParamFormat.

Definition paramName (p : TextParam) : string :=
  match p with
  | ParamFgColor => "fgColor"
  | ParamBgColor => "bgColor"
  | ParamEcLevel => "ecLevel"
  | ParamFormat => "format"
  end.

Definition accepts (p : TextParam) (v : string) : bool :=
  match p with
  | ParamFgColor | ParamBgColor => isValidHexColor v
  | ParamEcLevel => includes ["L"; "M"; "Q"; "H"] v
  | ParamFormat => includes ["svg"; "png"] (toLowerCase v)
  end.

Definition checkOf (p : TextParam) : Check :=
  match p with
  | ParamFgColor | ParamBgColor => CheckColor
  | ParamEcLevel => CheckEcLevel
  | ParamFormat => CheckFormat
  end.

(** *** The rendered document, piece by piece *)

Definition svgOpen (size : Number) : string :=
  "<svg xmlns=" ++ dq ++ "http://www.w3.org/2000/svg" ++ dq
  ++ " viewBox=" ++ dq ++ "0 0 " ++ toString size ++ " " ++ toString size ++ dq
  ++ " width=" ++ dq ++ toString size ++ dq
  ++ " height=" ++ dq ++ toString size ++ dq ++ ">".

Definition svgBackground (bgColor : string) : string :=
  "<rect width=" ++ dq ++ "100%" ++ dq ++ " height=" ++ dq ++ "100%" ++ dq
  ++ " fill=" ++ dq ++ "#" ++ bgColor ++ dq ++ "/>".

Definition moduleSizeOf (qr : QrMatrix) (size borderWidth : Number) : Number :=
  div size (add (ofNat (getModuleCount qr)) (mul (lit 2) borderWidth)).

(** where a module at index [i] of an axis starts *)
Definition coordinate (qr : QrMatrix) (size borderWidth : Number) (i : nat) : Number :=
  mul (add (ofNat i) borderWidth) (moduleSizeOf qr size borderWidth).

(** the cells of the matrix in row-major order, and the dark ones *)
Definition cells (qr : QrMatrix) : list (nat * nat) :=
  list_prod (seq 0 (getModuleCount qr)) (seq 0 (getModuleCount qr)).

Definition darkCells (qr : QrMatrix) : list (nat * nat) :=
  filter (fun cell => isDark qr (fst cell) (snd cell)) (cells qr).


Definition rectOf (qr : QrMatrix) (size : Number) (fgColor : string)
    (borderWidth : Number) (cell : nat * nat) : string :=
  moduleRect (coordinate qr size borderWidth (snd cell))
             (coordinate qr size borderWidth (fst cell))
             (moduleSizeOf qr size borderWidth) fgColor.

(** one side of a rectangle, from [x] over a width [w], lies in [[lo, hi]] *)
Definition within (lo hi x w : Number) : bool := le lo x && le (add x w) hi.

Fixpoint concatStrings (l : list string) : string :=
  match l with
  | [] => ""
  | s :: rest => s ++ concatStrings rest
  end.

(** a matrix of 21 modules whose only dark modules are the corners of the
    three finder patterns *)
Definition cornerMatrix : QrMatrix :=
  {| getModuleCount := 21;
     isDark := fun row col =>
       ((row =? 0) && ((col =? 0) || (col =? 20)) || (row =? 20) && (col =? 0))%nat |}.

(** *** Leading decimal digits of a parameter value *)

Definition isDecimalDigit (c : ascii) : bool := inRange 48 57 c.

Definition allDigits (s : string) : bool :=
  forallb isDecimalDigit (list_ascii_of_string s).

(** the integer a string of decimal digits denotes *)
Definition decimalValue (s : string) : Z :=
  fold_left (fun acc c => (10 * acc + (code c - 48))%Z) (list_ascii_of_string s) 0%Z.

Definition startsWithDigit (s : string) : bool :=
  match s with
  | String c _ => isDecimalDigit c
  | "" => false
  end.

(** the value opens with [0x] or [0X] *)
Definition hexPrefixed (s : string) : bool :=
  match s with
  | String "0" (String "x" _) => true
  | String "0" (String "X" _) => true
  | _ => false
  end.

End Props.

(** ** Further vocabulary

    Predicates on characters and strings, and a matrix without modules, for
    the properties of the handler beyond the claims of the specification. *)

Module Coverage.
Import JsNumber JsString Worker Props.
Local Open Scope string_scope.

(** every character of [s] satisfies [p] *)
Definition allChars (p : ascii -> bool) (s : string) : bool :=
  forallb p (list_ascii_of_string s).

(** a digit of base 16, in either case *)
Definition isHexChar (c : ascii) : bool :=
  match hexValue c with Some _ => true | None => false end.

(** the integer a string of hexadecimal digits denotes *)
Definition hexStringValue (s : string) : Z :=
  fold_left
    (fun acc c => (16 * acc + match hexValue c with Some v => v | None => 0 end)%Z)
    (list_ascii_of_string s) 0%Z.

Definition startsWithHexChar (s : string) : bool :=
  match s with
  | String c _ => isHexChar c
  | "" => false
  end.


(** the characters of the decimal forms of a finite number: the digits,
    the point, the signs and the [e] of an exponent *)
Definition isNumberChar (c : ascii) : bool :=
  inRange 48 57 c || existsb (fun k => (code c =? k)%Z) [46; 45; 43; 101]%Z.

(** printable ASCII *)
Definition isPrintable (c : ascii) : bool := inRange 32 126 c.

(** a visible ASCII character that is not a decimal digit *)
Definition isPlainChar (c : ascii) : bool :=
  inRange 33 126 c && negb (isDecimalDigit c).

Definition isSign (c : ascii) : bool := (code c =? 43)%Z || (code c =? 45)%Z.

(** a matrix without modules *)
Definition emptyMatrix : QrMatrix :=
  {| getModuleCount := 0; isDark := fun _ _ => true |}.

End Coverage.

(** ** The model on sample inputs

    What the definitions compute, next to what a JavaScript engine prints
    and to the Standard Library's IEEE 754 arithmetic. *)

Module Samples.
Import JsNumber JsString Worker.
Local Open Scope string_scope.

Example div_300_29 : toString (div (lit 300) (lit 29)) = "10.344827586206897".
Proof. vm_compute. reflexivity. Qed.

Example add_tenths :
  toString (add (div (lit 1) (lit 10)) (div (lit 2) (lit 10))) = "0.30000000000000004".
Proof. vm_compute. reflexivity. Qed.

Example toString_samples :
  toString (lit 300) = "300"
  /\ toString (div (lit 1) (lit 3)) = "0.3333333333333333"
  /\ toString (ofZ (2 ^ 60)) = "1152921504606847000"
  /\ toString (ofZ (10 ^ 21)) = "1e+21"
  /\ toString (div (lit 1) (lit 10000000)) = "1e-7"
  /\ toString (div (lit 1) (lit 0)) = "Infinity"
  /\ toString (div (lit 0) (lit 0)) = "NaN"
  /\ toString (div (lit (-5)) (lit 2)) = "-2.5".
Proof. repeat split; vm_compute; reflexivity. Qed.

Example ties_to_even : ofZ (2 ^ 53 + 1) = ofZ (2 ^ 53) /\ ofZ (2 ^ 53 + 3) = ofZ (2 ^ 53 + 4).
Proof. split; vm_compute; reflexivity. Qed.

Example agrees_div : ofSpec (b64div (b64 300) (b64 29)) = div (lit 300) (lit 29).
Proof. vm_compute. reflexivity. Qed.

Example agrees_coordinate :
  let ms := b64div (b64 100) (b64 27) in
  let x := b64mul (b64add (b64 20) (b64 3)) ms in
  ofSpec (b64add x ms)
  = add (mul (add (lit 20) (lit 3)) (div (lit 100) (lit 27))) (div (lit 100) (lit 27)).
Proof. vm_compute. reflexivity. Qed.

Example agrees_special :
  ofSpec (b64div (b64 1) (b64 0)) = div (lit 1) (lit 0)
  /\ ofSpec (b64div (b64 0) (b64 0)) = div (lit 0) (lit 0)
  /\ ofSpec (b64div (b64 (-7)) (b64 3)) = div (lit (-7)) (lit 3)
  /\ ofSpec (b64 (2 ^ 53 + 1)) = ofZ (2 ^ 53 + 1)
  /\ ofSpec (b64mul (b64 (2 ^ 600)) (b64 (2 ^ 600))) = mul (ofZ (2 ^ 600)) (ofZ (2 ^ 600))
  /\ ofSpec (b64div (b64div (b64 1) (b64 (2 ^ 1000))) (b64 (3 * 2 ^ 60)))
     = div (div (lit 1) (ofZ (2 ^ 1000))) (ofZ (3 * 2 ^ 60)).
Proof. repeat split; vm_compute; reflexivity. Qed.

Example parseInt_samples :
  parseInt "300abc" = lit 300
  /\ parseInt "150.9" = lit 150
  /\ parseInt "  -42" = lit (-42)
  /\ parseInt "+7" = lit 7
  /\ parseInt "0x1F" = lit 31
  /\ parseInt "1e3" = lit 1
  /\ parseInt "0x" = NaN
  /\ parseInt "abc" = NaN
  /\ parseInt "" = NaN.
Proof. repeat split; vm_compute; reflexivity. Qed.

Example isValidHexColor_samples :
  isValidHexColor "ff00ff" = true
  /\ isValidHexColor "ZZZZZZ" = false
  /\ isValidHexColor "#FFFFFF" = false
  /\ isValidHexColor "FFF" = false
  /\ isValidHexColor "" = false.
Proof. repeat split; reflexivity. Qed.

Example encode_sample :
  encodeURIComponent ("<rect x=" ++ dq ++ "0" ++ dq ++ "/> #%")
  = "%3Crect%20x%3D%220%22%2F%3E%20%23%25".
Proof. reflexivity. Qed.

End Samples.

(** * Properties *)

(** ** Facts about binary64 rounding *)

Module JsNumberFacts.
Import JsNumber.
Local Open Scope Q_scope.

Lemma pow2_pos k : 0 < pow2 k.
Proof. apply Qpower_0_lt. reflexivity. Qed.

Lemma pow2_add a b : pow2 (a + b) == pow2 a * pow2 b.
Proof. apply Qpower_plus. discriminate. Qed.

Lemma pow2_le a b : (a <= b)%Z -> pow2 a <= pow2 b.
Proof. intros H. apply Qpower_le_compat_l; [exact H | discriminate]. Qed.

Lemma pow2_lt_inv a b : pow2 a < pow2 b -> (a < b)%Z.
Proof. intros H. apply (Qpower_lt_compat_l_inv (2#1)); [exact H | reflexivity]. Qed.

Lemma pow2_inject k : (0 <= k)%Z -> inject_Z (2 ^ k) == pow2 k.
Proof. intros H. apply (Zpower_Qpower 2 k H). Qed.

Lemma pow2_opp k : pow2 (- k) == / pow2 k.
Proof. apply Qpower_opp. Qed.

Lemma ilog2_spec q : 0 < q -> pow2 (ilog2 q) <= q /\ q < pow2 (ilog2 q + 1).
Proof.
  intros Hq. unfold ilog2.
  destruct (Qle_bool 1 q) eqn:E.
  - apply Qle_bool_iff in E.
    assert (Hf : (1 <= Qfloor q)%Z).
    { change 1%Z with (Qfloor 1). apply Qfloor_resp_le, E. }
    destruct (Z.log2_spec (Qfloor q)) as [L U]; [lia|].
    pose proof (Z.log2_nonneg (Qfloor q)) as Hn.
    split.
    + rewrite <- pow2_inject by exact Hn.
      apply Qle_trans with (inject_Z (Qfloor q)); [|apply Qfloor_le].
      rewrite <- Zle_Qle. exact L.
    + rewrite <- pow2_inject by lia.
      apply Qlt_le_trans with (inject_Z (Qfloor q + 1)); [apply Qlt_floor|].
      rewrite <- Zle_Qle. unfold Z.succ in U. lia.
  - assert (Hq1 : q < 1).
    { apply Qnot_le_lt. intros H. apply Qle_bool_iff in H. congruence. }
    assert (Hi : 1 < / q).
    { apply Qlt_shift_inv_l; [exact Hq | now rewrite Qmult_1_l]. }
    set (c := Qceiling (/ q)).
    assert (Hc : (1 < c)%Z).
    { rewrite Zlt_Qlt. apply Qlt_le_trans with (/ q); [exact Hi | apply Qle_ceiling]. }
    destruct (Z.log2_up_spec c Hc) as [L U].
    pose proof (Z.log2_up_pos c Hc) as Hk.
    set (k := Z.log2_up c) in *.
    assert (Hip : 0 < / q) by (apply Qinv_lt_0_compat, Hq).
    split.
    + rewrite pow2_opp. apply Qle_shift_inv_r; [apply pow2_pos|].
      (* 1 <= q * 2^k *)
      assert (H1 : / q <= pow2 k).
      { apply Qle_trans with (inject_Z c); [apply Qle_ceiling|].
        rewrite <- pow2_inject by lia. rewrite <- Zle_Qle. exact U. }
      apply (Qmult_le_compat_r _ _ q) in H1; [|apply Qlt_le_weak, Hq].
      rewrite Qmult_comm in H1. rewrite Qmult_inv_r in H1; [|intros A; rewrite A in Hq; discriminate].
      rewrite Qmult_comm. exact H1.
    + replace (- k + 1)%Z with (- (k - 1))%Z by lia.
      rewrite pow2_opp. apply Qlt_shift_inv_l; [apply pow2_pos|].
      assert (H1 : pow2 (k - 1) < / q).
      { apply Qle_lt_trans with (inject_Z (c - 1)); [|apply Qceiling_lt].
        rewrite <- pow2_inject by lia. rewrite <- Zle_Qle.
        change (Z.pred k) with (k - 1)%Z in L. lia. }
      apply (Qmult_lt_compat_r _ _ q) in H1; [|exact Hq].
      rewrite (Qmult_comm (/ q)) in H1. rewrite Qmult_inv_r in H1; [|intros A; rewrite A in Hq; discriminate].
      rewrite Qmult_comm. exact H1.
Qed.

Lemma ilog2_mono a b : 0 < a -> a <= b -> (ilog2 a <= ilog2 b)%Z.
Proof.
  intros Ha Hab.
  destruct (ilog2_spec a Ha) as [La _].
  destruct (ilog2_spec b) as [_ Ub]; [eapply Qlt_le_trans; eauto|].
  assert (H : pow2 (ilog2 a) < pow2 (ilog2 b + 1)).
  { eapply Qle_lt_trans; [exact La|]. eapply Qle_lt_trans; eauto. }
  apply pow2_lt_inv in H. lia.
Qed.

Lemma roundHalfEven_floor q :
  roundHalfEven q = Qfloor q \/ roundHalfEven q = (Qfloor q + 1)%Z.
Proof.
  unfold roundHalfEven.
  destruct (q - inject_Z (Qfloor q) ?= 1 # 2); auto.
  destruct (Z.even (Qfloor q)); auto.
Qed.

Lemma roundHalfEven_ge q n : inject_Z n <= q -> (n <= roundHalfEven q)%Z.
Proof.
  intros H. apply Qfloor_resp_le in H. rewrite Qfloor_Z in H.
  destruct (roundHalfEven_floor q) as [E|E]; rewrite E; lia.
Qed.

Lemma roundHalfEven_le q n : q <= inject_Z n -> (roundHalfEven q <= n)%Z.
Proof.
  intros H. pose proof (Qfloor_resp_le _ _ H) as Hf. rewrite Qfloor_Z in Hf.
  destruct (Z.eq_dec (Qfloor q) n) as [E|E].
  - unfold roundHalfEven. rewrite E.
    destruct (Qcompare_spec (q - inject_Z n) (1 # 2)) as [A|A|A];
      [exfalso; lra | lia | exfalso; lra].
  - destruct (roundHalfEven_floor q) as [E'|E']; rewrite E'; lia.
Qed.

Lemma roundHalfEven_mono a b : a <= b -> (roundHalfEven a <= roundHalfEven b)%Z.
Proof.
  intros H. pose proof (Qfloor_resp_le _ _ H) as Hf.
  destruct (Z.eq_dec (Qfloor a) (Qfloor b)) as [E|E].
  - unfold roundHalfEven. rewrite E.
    destruct (Qcompare_spec (a - inject_Z (Qfloor b)) (1 # 2)) as [A|A|A];
      destruct (Qcompare_spec (b - inject_Z (Qfloor b)) (1 # 2)) as [B|B|B];
      try destruct (Z.even (Qfloor b)); try lia; exfalso; lra.
  - destruct (roundHalfEven_floor a) as [Ea|Ea], (roundHalfEven_floor b) as [Eb|Eb];
      rewrite Ea, Eb; lia.
Qed.

Lemma ulpExp_mono a b : 0 < a -> a <= b -> (ulpExp a <= ulpExp b)%Z.
Proof.
  intros Ha Hab. unfold ulpExp. pose proof (ilog2_mono a b Ha Hab). lia.
Qed.

Lemma scaled_lt q : 0 < q -> q / pow2 (ulpExp q) < pow2 53.
Proof.
  intros Hq. apply Qlt_shift_div_r; [apply pow2_pos|].
  rewrite <- pow2_add.
  destruct (ilog2_spec q Hq) as [_ U].
  eapply Qlt_le_trans; [exact U|]. apply pow2_le. unfold ulpExp. lia.
Qed.

Lemma scaled_ge q : 0 < q -> (-1022 <= ilog2 q)%Z -> pow2 52 <= q / pow2 (ulpExp q).
Proof.
  intros Hq He. apply Qle_shift_div_l; [apply pow2_pos|].
  rewrite <- pow2_add.
  destruct (ilog2_spec q Hq) as [L _].
  eapply Qle_trans; [|exact L]. apply pow2_le. unfold ulpExp. lia.
Qed.

Lemma nearest_nonneg q : 0 < q -> 0 <= nearest q.
Proof.
  intros Hq. unfold nearest.
  apply Qmult_le_0_compat; [|apply Qlt_le_weak, pow2_pos].
  change 0 with (inject_Z 0). rewrite <- Zle_Qle.
  apply roundHalfEven_ge. simpl.
  apply Qle_shift_div_l; [apply pow2_pos|]. rewrite Qmult_0_l. now apply Qlt_le_weak.
Qed.

Lemma nearest_mono a b : 0 < a -> a <= b -> nearest a <= nearest b.
Proof.
  intros Ha Hab.
  assert (Hb : 0 < b) by (eapply Qlt_le_trans; eauto).
  pose proof (ulpExp_mono a b Ha Hab) as Hp.
  unfold nearest.
  destruct (Z.eq_dec (ulpExp a) (ulpExp b)) as [E|E].
  - rewrite E. apply Qmult_le_compat_r; [|apply Qlt_le_weak, pow2_pos].
    rewrite <- Zle_Qle. apply roundHalfEven_mono.
    apply Qmult_le_compat_r; [exact Hab|].
    apply Qlt_le_weak, Qinv_lt_0_compat, pow2_pos.
  - apply Qle_trans with (pow2 (52 + ulpExp b)).
    + apply Qle_trans with (pow2 (53 + ulpExp a)); [|apply pow2_le; lia].
      rewrite pow2_add. apply Qmult_le_compat_r; [|apply Qlt_le_weak, pow2_pos].
      rewrite <- (pow2_inject 53) by lia. rewrite <- Zle_Qle.
      apply roundHalfEven_le. rewrite (pow2_inject 53) by lia.
      apply Qlt_le_weak, scaled_lt, Ha.
    + rewrite pow2_add. apply Qmult_le_compat_r; [|apply Qlt_le_weak, pow2_pos].
      rewrite <- (pow2_inject 52) by lia. rewrite <- Zle_Qle.
      apply roundHalfEven_ge. rewrite (pow2_inject 52) by lia.
      apply scaled_ge; [exact Hb|]. unfold ulpExp in *. lia.
Qed.

(** order facts on numbers *)

Lemma roundPos_nonneg q : 0 < q -> nonneg (roundPos q).
Proof.
  intros Hq. unfold roundPos. destruct (Qle_bool _ _); cbn [nonneg le neg]; [exact I|].
  rewrite Qred_correct. now apply nearest_nonneg.
Qed.

Lemma roundPos_mono a b : 0 < a -> a <= b -> le (roundPos a) (roundPos b) = true.
Proof.
  intros Ha Hab. pose proof (nearest_mono a b Ha Hab) as H.
  unfold roundPos.
  destruct (Qle_bool (pow2 1024) (nearest a)) eqn:Ea;
    destruct (Qle_bool (pow2 1024) (nearest b)) eqn:Eb; cbn [nonneg le neg]; auto.
  - apply Qle_bool_iff in Ea.
    assert (Hb : pow2 1024 <= nearest b) by (eapply Qle_trans; eauto).
    apply Qle_bool_iff in Hb. congruence.
  - apply Qle_bool_iff. now rewrite !Qred_correct.
Qed.

Lemma le_nonneg_neg x y : nonneg x -> nonneg y -> le (neg x) y = true.
Proof.
  destruct x, y; cbn [nonneg le neg]; try tauto.
  intros A B. apply Qle_bool_iff. rewrite Qred_correct. lra.
Qed.

Lemma le_neg x y : le x y = true -> le (neg y) (neg x) = true.
Proof.
  destruct x, y; cbn [nonneg le neg]; try congruence.
  intros H. apply Qle_bool_iff in H. apply Qle_bool_iff.
  rewrite !Qred_correct. lra.
Qed.

Lemma le_zero_nonneg x : nonneg x -> le (Fin 0) x = true.
Proof. destruct x; cbn [nonneg le neg]; try tauto. intros. now apply Qle_bool_iff. Qed.

Lemma le_neg_zero x : nonneg x -> le (neg x) (Fin 0) = true.
Proof.
  destruct x; cbn [nonneg le neg]; try tauto. intros. apply Qle_bool_iff.
  rewrite Qred_correct. lra.
Qed.

(** Rounding to nearest is monotone. *)
Lemma round_mono a b : a <= b -> le (round a) (round b) = true.
Proof.
  intros Hab. unfold round.
  destruct (Qcompare_spec a 0) as [A|A|A]; destruct (Qcompare_spec b 0) as [B|B|B];
    try (exfalso; lra).
  - reflexivity.
  - apply le_zero_nonneg, roundPos_nonneg, B.
  - apply le_neg_zero, roundPos_nonneg. lra.
  - apply le_neg, roundPos_mono; lra.
  - apply le_nonneg_neg; apply roundPos_nonneg; lra.
  - apply roundPos_mono; lra.
Qed.

Lemma round_nonneg q : 0 <= q -> nonneg (round q).
Proof.
  intros H. unfold round. destruct (Qcompare_spec q 0) as [A|A|A].
  - cbn [nonneg le neg]. lra.
  - exfalso; lra.
  - now apply roundPos_nonneg.
Qed.

(** Doubles hold the integers below [2^53] exactly. *)

Lemma Qred_inject_Z z : Qred (inject_Z z) = inject_Z z.
Proof.
  pose proof (Qred_correct (inject_Z z)) as E.
  pose proof (gcd_Qred (inject_Z z)) as G.
  destruct (Qred (inject_Z z)) as [n d].
  unfold Qeq, inject_Z in *. cbn [Qnum Qden] in *.
  assert (Hn : n = (z * Z.pos d)%Z) by lia.
  subst n. rewrite Z.mul_comm, Z.gcd_comm in G.
  rewrite Z.gcd_mul_diag_l in G by lia.
  injection G as ->. now rewrite Z.mul_1_r.
Qed.

Lemma roundHalfEven_int q k : q == inject_Z k -> roundHalfEven q = k.
Proof.
  intros E. unfold roundHalfEven.
  rewrite (Qfloor_comp _ _ E), Qfloor_Z.
  destruct (Qcompare_spec (q - inject_Z k) (1 # 2)) as [A|A|A];
    [exfalso; lra | reflexivity | exfalso; lra].
Qed.

Lemma ilog2_inject_Z z : (0 < z)%Z -> ilog2 (inject_Z z) = Z.log2 z.
Proof.
  intros Hz. unfold ilog2.
  assert (H : Qle_bool 1 (inject_Z z) = true).
  { apply Qle_bool_iff. change 1 with (inject_Z 1). rewrite <- Zle_Qle. lia. }
  now rewrite H, Qfloor_Z.
Qed.

Lemma nearest_int z : (0 < z < 2 ^ 53)%Z -> nearest (inject_Z z) == inject_Z z.
Proof.
  intros Hz. unfold nearest.
  assert (Hp : ulpExp (inject_Z z) = (- (52 - Z.log2 z))%Z).
  { unfold ulpExp. rewrite ilog2_inject_Z by lia.
    pose proof (Z.log2_nonneg z). lia. }
  assert (Hl : (Z.log2 z < 53)%Z) by (apply Z.log2_lt_pow2; lia).
  pose proof (Z.log2_nonneg z) as Hl0.
  rewrite Hp. set (k := (52 - Z.log2 z)%Z). assert (Hk : (0 <= k)%Z) by (unfold k; lia).
  assert (E : inject_Z z / pow2 (- k) == inject_Z (z * 2 ^ k)).
  { rewrite inject_Z_mult, (pow2_inject k Hk), pow2_opp.
    unfold Qdiv. now rewrite Qinv_involutive. }
  rewrite (roundHalfEven_int _ _ E).
  rewrite inject_Z_mult, (pow2_inject k Hk), pow2_opp.
  field. intros A. pose proof (pow2_pos k) as P. rewrite A in P. discriminate.
Qed.

Lemma round_int_pos z : (0 < z < 2 ^ 53)%Z -> round (inject_Z z) = Fin (inject_Z z).
Proof.
  intros Hz. unfold round.
  assert (Hp : 0 < inject_Z z).
  { change 0 with (inject_Z 0). rewrite <- Zlt_Qlt. lia. }
  destruct (Qcompare_spec (inject_Z z) 0) as [A|A|A]; [exfalso; lra | exfalso; lra |].
  unfold roundPos.
  pose proof (nearest_int z Hz) as E.
  assert (Hlt : Qle_bool (pow2 1024) (nearest (inject_Z z)) = false).
  { apply not_true_is_false. intros H. apply Qle_bool_iff in H.
    rewrite E in H. rewrite <- (pow2_inject 1024) in H by lia.
    rewrite <- Zle_Qle in H.
    assert ((2 ^ 53 < 2 ^ 1024)%Z) by (apply Z.pow_lt_mono_r; lia). lia. }
  rewrite Hlt. f_equal. rewrite (Qred_complete _ _ E). apply Qred_inject_Z.
Qed.

Lemma round_int z : (- 2 ^ 53 < z < 2 ^ 53)%Z -> round (inject_Z z) = Fin (inject_Z z).
Proof.
  intros Hz. destruct (Z.lt_trichotomy z 0) as [H|[H|H]].
  - unfold round.
    assert (Hn : inject_Z z < 0).
    { change 0 with (inject_Z 0). rewrite <- Zlt_Qlt. lia. }
    destruct (Qcompare_spec (inject_Z z) 0) as [A|A|A]; [exfalso; lra | | exfalso; lra].
    pose proof (round_int_pos (- z) ltac:(lia)) as R.
    unfold round in R. rewrite inject_Z_opp in R.
    destruct (Qcompare_spec (- inject_Z z) 0) as [B|B|B]; [exfalso; lra | exfalso; lra |].
    rewrite R. cbn [neg]. f_equal.
    rewrite (Qred_complete _ (inject_Z z)) by apply Qopp_involutive.
    apply Qred_inject_Z.
  - subst z. reflexivity.
  - apply round_int_pos. lia.
Qed.

Lemma ofZ_exact z : (- 2 ^ 53 < z < 2 ^ 53)%Z -> ofZ z = Fin (inject_Z z).
Proof. apply round_int. Qed.

(** values between two finite numbers are finite *)
Lemma le_between x a b :
  le (Fin a) x = true -> le x (Fin b) = true -> exists q, x = Fin q /\ a <= q <= b.
Proof.
  destruct x; cbn [le]; try discriminate.
  intros A B. apply Qle_bool_iff in A, B. eauto.
Qed.

Lemma round_between q a b ra rb :
  a <= q <= b -> round a = Fin ra -> round b = Fin rb ->
  exists r, round q = Fin r /\ ra <= r <= rb.
Proof.
  intros [Ha Hb] Ea Eb. apply le_between.
  - rewrite <- Ea. now apply round_mono.
  - rewrite <- Eb. now apply round_mono.
Qed.
(** Rounding depends on the value of the rational alone. *)

Lemma ilog2_comp q q' : q == q' -> ilog2 q = ilog2 q'.
Proof.
  intros E. unfold ilog2.
  rewrite (Qleb_comp 1 1 (Qeq_refl 1) q q' E), (Qfloor_comp q q' E).
  now rewrite (Qceiling_comp (/ q) (/ q') (Qinv_comp q q' E)).
Qed.

Lemma roundHalfEven_comp q q' : q == q' -> roundHalfEven q = roundHalfEven q'.
Proof.
  intros E. unfold roundHalfEven. rewrite (Qfloor_comp q q' E).
  assert (H : q - inject_Z (Qfloor q') == q' - inject_Z (Qfloor q')) by (now rewrite E).
  now rewrite (Qcompare_comp _ _ H (1 # 2) (1 # 2) (Qeq_refl _)).
Qed.

Lemma nearest_comp q q' : q == q' -> nearest q == nearest q'.
Proof.
  intros E. unfold nearest, ulpExp. rewrite (ilog2_comp q q' E).
  set (p := (Z.max (ilog2 q') (-1022) - 52)%Z).
  assert (H : q / pow2 p == q' / pow2 p) by (now rewrite E).
  now rewrite (roundHalfEven_comp _ _ H).
Qed.

Lemma roundPos_comp q q' : q == q' -> roundPos q = roundPos q'.
Proof.
  intros E. unfold roundPos. pose proof (nearest_comp q q' E) as H.
  rewrite (Qleb_comp _ _ (Qeq_refl (pow2 1024)) _ _ H).
  destruct (Qle_bool _ _); [reflexivity|]. f_equal. now apply Qred_complete.
Qed.

Lemma round_comp q q' : q == q' -> round q = round q'.
Proof.
  intros E. unfold round.
  rewrite (Qcompare_comp q q' E 0 0 (Qeq_refl 0)).
  destruct (q' ?= 0); [reflexivity | |].
  - f_equal. apply roundPos_comp. now rewrite E.
  - now apply roundPos_comp.
Qed.

Lemma lit_pos z : (0 < z)%Z -> sgn (inject_Z z) = Gt.
Proof.
  intros H. unfold sgn. apply Qgt_alt.
  change 0 with (inject_Z 0). rewrite <- Zlt_Qlt. lia.
Qed.

Lemma add_lit x y :
  (- 2 ^ 53 < x + y < 2 ^ 53)%Z -> add (lit x) (lit y) = lit (x + y).
Proof.
  intros H. unfold lit. cbn [add].
  rewrite (round_comp _ (inject_Z (x + y))) by (now rewrite inject_Z_plus).
  now apply round_int.
Qed.

Lemma mul_lit x y :
  (- 2 ^ 53 < x * y < 2 ^ 53)%Z -> mul (lit x) (lit y) = lit (x * y).
Proof.
  intros H. unfold lit. cbn [mul].
  rewrite (round_comp _ (inject_Z (x * y))) by (now rewrite inject_Z_mult).
  now apply round_int.
Qed.

Lemma ofNat_lit n : (Z.of_nat n < 2 ^ 53)%Z -> ofNat n = lit (Z.of_nat n).
Proof. intros H. unfold ofNat, lit. apply ofZ_exact. lia. Qed.

(** The error of a rounding. *)

Lemma roundHalfEven_error y :
  inject_Z (roundHalfEven y) - y <= 1 # 2 /\ y - inject_Z (roundHalfEven y) <= 1 # 2.
Proof.
  unfold roundHalfEven.
  pose proof (Qfloor_le y) as L. pose proof (Qlt_floor y) as U.
  rewrite inject_Z_plus in U. change (inject_Z 1) with 1 in U.
  destruct (Qcompare_spec (y - inject_Z (Qfloor y)) (1 # 2)) as [A|A|A];
    try destruct (Z.even (Qfloor y));
    rewrite ?inject_Z_plus; change (inject_Z 1) with 1; split; lra.
Qed.

Lemma pow2_succ k : pow2 (k + 1) == 2 * pow2 k.
Proof. rewrite pow2_add. change (pow2 1) with 2. ring. Qed.

(** In the normal range, rounding moves a value by at most half a unit in
    the last place, hence by at most [2^-53] of the value. *)
Lemma nearest_rel_error q :
  pow2 (-1022) <= q ->
  nearest q - q <= q * pow2 (-53) /\ q - nearest q <= q * pow2 (-53).
Proof.
  intros Hq.
  assert (Hpos : 0 < q) by (eapply Qlt_le_trans; [apply (pow2_pos (-1022)) | exact Hq]).
  destruct (ilog2_spec q Hpos) as [L U].
  assert (He : (-1022 <= ilog2 q)%Z).
  { assert (H : pow2 (-1022) < pow2 (ilog2 q + 1)) by (eapply Qle_lt_trans; eauto).
    apply pow2_lt_inv in H. lia. }
  assert (Hp : ulpExp q = (ilog2 q - 52)%Z) by (unfold ulpExp; lia).
  unfold nearest. rewrite Hp. set (p := (ilog2 q - 52)%Z).
  pose proof (pow2_pos p) as Pp.
  destruct (roundHalfEven_error (q / pow2 p)) as [E1 E2].
  set (r := inject_Z (roundHalfEven (q / pow2 p))) in *.
  assert (Hhalf : pow2 p * (1 # 2) <= q * pow2 (-53)).
  { apply Qle_trans with (pow2 (ilog2 q) * pow2 (-53)).
    - rewrite <- pow2_add. replace (ilog2 q + -53)%Z with (p + -1)%Z by (unfold p; lia).
      rewrite pow2_add. change (pow2 (-1)) with (1 # 2). lra.
    - apply Qmult_le_compat_r; [exact L | apply Qlt_le_weak, pow2_pos]. }
  assert (Hq' : q == q / pow2 p * pow2 p).
  { field. intros A. rewrite A in Pp. discriminate. }
  set (y := q / pow2 p) in *.
  split.
  - apply Qle_trans with (pow2 p * (1 # 2)); [|exact Hhalf].
    rewrite Hq' at 1.
    setoid_replace (r * pow2 p - y * pow2 p) with ((r - y) * pow2 p) by ring.
    rewrite (Qmult_comm (pow2 p)). apply Qmult_le_compat_r; lra.
  - apply Qle_trans with (pow2 p * (1 # 2)); [|exact Hhalf].
    rewrite Hq' at 1.
    setoid_replace (y * pow2 p - r * pow2 p) with ((y - r) * pow2 p) by ring.
    rewrite (Qmult_comm (pow2 p)). apply Qmult_le_compat_r; lra.
Qed.

Lemma round_rel_error q r :
  q == 0 \/ pow2 (-1022) <= q -> round q = Fin r ->
  r - q <= q * pow2 (-53) /\ q - r <= q * pow2 (-53).
Proof.
  intros Hq Hr. unfold round in Hr.
  destruct (Qcompare_spec q 0) as [A|A|A].
  - injection Hr as <-. rewrite A. split; lra.
  - exfalso. destruct Hq as [Hq|Hq]; [lra|].
    pose proof (pow2_pos (-1022)). lra.
  - destruct Hq as [Hq|Hq]; [lra|].
    unfold roundPos in Hr. destruct (Qle_bool _ _); [discriminate|].
    assert (Hr' : Qred (nearest q) = r) by congruence.
    pose proof (Qred_correct (nearest q)) as E. rewrite Hr' in E.
    destruct (nearest_rel_error q Hq) as [E1 E2]. rewrite E. now split.
Qed.

End JsNumberFacts.

(** ** The control flow of the handler *)

Module ControlFlow.
Import JsNumber JsString Worker Props JsNumberFacts.
Local Open Scope string_scope.

Section WithEncoder.
Variable qrcode : option string -> string -> Thrown + QrMatrix.

Lemma fetch_checks r :
  fetch qrcode r =
  if fails CheckSize r then ret (rejection CheckSize)
  else if fails CheckColor r then ret (rejection CheckColor)
  else if fails CheckEcLevel r then ret (rejection CheckEcLevel)
  else if fails CheckBorderWidth r then ret (rejection CheckBorderWidth)
  else if fails CheckFormat r then ret (rejection CheckFormat)
  else attempt qrcode r.
Proof. reflexivity. Qed.

Lemma fetch_first_failure r c :
  fails c r = true ->
  (forall c', (rank c' < rank c)%nat -> fails c' r = false) ->
  fetch qrcode r = ret (rejection c).
Proof.
  intros Hc Hbefore. rewrite fetch_checks.
  destruct c;
    repeat match goal with
    | |- context [if fails ?c' r then _ else _] =>
        first [ rewrite Hc; reflexivity
              | rewrite (Hbefore c') by (cbn [rank]; lia) ]
    end.
Qed.

Lemma fetch_all_pass r : allPass r -> fetch qrcode r = attempt qrcode r.
Proof. intros H. rewrite fetch_checks. now rewrite !H. Qed.

(** Some check fails, and then the earliest one that does decides. *)
Lemma first_failure_exists r c :
  fails c r = true ->
  exists c0, (rank c0 <= rank c)%nat /\ fails c0 r = true /\
             forall c', (rank c' < rank c0)%nat -> fails c' r = false.
Proof.
  intros Hc.
  destruct (fails CheckSize r) eqn:E0.
  { exists CheckSize. repeat split; [cbn; lia | assumption |].
    intros c'. destruct c'; cbn [rank]; lia. }
  destruct (fails CheckColor r) eqn:E1.
  { exists CheckColor. repeat split; [destruct c; cbn; try lia; congruence | assumption |].
    intros c'. destruct c'; cbn [rank]; try lia; auto. }
  destruct (fails CheckEcLevel r) eqn:E2.
  { exists CheckEcLevel. repeat split; [destruct c; cbn; try lia; congruence | assumption |].
    intros c'. destruct c'; cbn [rank]; try lia; auto. }
  destruct (fails CheckBorderWidth r) eqn:E3.
  { exists CheckBorderWidth. repeat split; [destruct c; cbn; try lia; congruence | assumption |].
    intros c'. destruct c'; cbn [rank]; try lia; auto. }
  exists CheckFormat. destruct c; try congruence.
  repeat split; [cbn; lia | assumption |].
  intros c'. destruct c'; cbn [rank]; try lia; auto.
Qed.

Lemma ecLevelMap_valid r :
  fails CheckEcLevel r = false -> property (ecLevelOf r) ecLevelMap = Some (ecLevelOf r).
Proof.
  cbn [fails]. intros H. apply negb_false_iff in H.
  unfold includes in H. cbn [existsb] in H.
  repeat (apply orb_true_iff in H; destruct H as [H|H]);
    try discriminate; apply String.eqb_eq in H; rewrite H; reflexivity.
Qed.

Lemma attempt_svg r qr :
  fails CheckEcLevel r = false ->
  qrcode (Some (ecLevelOf r)) (textOf r) = inr qr ->
  formatOf r = "svg" ->
  attempt qrcode r =
  ([CallEncoder (Some (ecLevelOf r)) (textOf r); CallGenerateSVG],
   inr (newResponse
          (generateSVG qr (sizeOf r) (fgColorOf r) (bgColorOf r) (borderWidthOf r))
          None svgHeaders)).
Proof.
  intros He Hq Hf. unfold attempt, encode. rewrite (ecLevelMap_valid r He), Hq, Hf.
  reflexivity.
Qed.

Lemma attempt_png r qr :
  fails CheckEcLevel r = false ->
  qrcode (Some (ecLevelOf r)) (textOf r) = inr qr ->
  formatOf r = "png" ->
  attempt qrcode r =
  ([CallEncoder (Some (ecLevelOf r)) (textOf r); CallGenerateSVG],
   inr (newResponse
          (stringifyDataUrl
             ("data:image/svg+xml;charset=UTF-8,"
              ++ encodeURIComponent
                   (generateSVG qr (sizeOf r) (fgColorOf r) (bgColorOf r)
                      (borderWidthOf r))))
          None jsonHeaders)).
Proof.
  intros He Hq Hf. unfold attempt, encode. rewrite (ecLevelMap_valid r He), Hq, Hf.
  reflexivity.
Qed.

Lemma attempt_thrown r e :
  fails CheckEcLevel r = false ->
  qrcode (Some (ecLevelOf r)) (textOf r) = inl e ->
  attempt qrcode r =
  ([CallEncoder (Some (ecLevelOf r)) (textOf r)],
   inr (newResponse
          ("Error generating QR code: "
           ++ match e with
              | ThrownError message => message
              | ThrownValue _ => "Unknown error occurred"
              end)
          (Some 500) [])).
Proof.
  intros He Hq. unfold attempt, encode. rewrite (ecLevelMap_valid r He), Hq.
  reflexivity.
Qed.

Lemma format_cases r :
  fails CheckFormat r = false -> formatOf r = "svg" \/ formatOf r = "png".
Proof.
  cbn [fails]. intros H. apply negb_false_iff in H.
  unfold includes in H. cbn [existsb] in H.
  repeat (apply orb_true_iff in H; destruct H as [H|H]);
    try discriminate; apply String.eqb_eq in H; auto.
Qed.

End WithEncoder.
End ControlFlow.

(** ** Parsing of the numeric parameters *)

Module Parsing.
Import JsNumber JsString Worker Props JsNumberFacts.
Local Open Scope string_scope.

Lemma inject_Z_le a b : (a <= b)%Z -> (inject_Z a <= inject_Z b)%Q.
Proof. now rewrite <- Zle_Qle. Qed.

Lemma Qle_bool_inject a b : Qle_bool (inject_Z a) (inject_Z b) = (a <=? b)%Z.
Proof.
  destruct (Z.leb_spec a b) as [H|H].
  - apply Qle_bool_iff, inject_Z_le, H.
  - apply not_true_is_false. intros A. apply Qle_bool_iff in A.
    rewrite <- Zle_Qle in A. lia.
Qed.

(** The range test of the handler on an integer-valued number is the
    test on the integer. *)
Lemma outside_ofZ lo hi z :
  (- 2 ^ 53 + 1 < lo)%Z -> (lo <= hi)%Z -> (hi < 2 ^ 53 - 1)%Z ->
  outside lo hi (ofZ z) = negb ((lo <=? z) && (z <=? hi))%Z.
Proof.
  intros Hlo Hle Hhi. unfold outside, gt, lit.
  destruct (Z.leb_spec lo z) as [A|A]; [destruct (Z.leb_spec z hi) as [B|B]|];
    cbn [andb negb].
  - rewrite ofZ_exact by lia. cbn [isNaN lt orb].
    rewrite !Qle_bool_inject.
    destruct (Z.leb_spec lo z), (Z.leb_spec z hi); try lia; reflexivity.
  - pose proof (round_mono _ _ (inject_Z_le (hi + 1) z ltac:(lia))) as M.
    fold (ofZ (hi + 1)) in M. fold (ofZ z) in M.
    rewrite ofZ_exact in M by lia.
    destruct (ofZ z) as [| | |q]; cbn [le] in M; try discriminate.
    + cbn. reflexivity.
    + apply Qle_bool_iff in M. cbn [isNaN lt orb].
      assert (Hq : Qle_bool q (inject_Z hi) = false).
      { apply not_true_is_false. intros C. apply Qle_bool_iff in C.
        pose proof (Qle_trans _ _ _ M C) as D. rewrite <- Zle_Qle in D. lia. }
      rewrite Hq. cbn. apply orb_true_r.
  - pose proof (round_mono _ _ (inject_Z_le z (lo - 1) ltac:(lia))) as M.
    fold (ofZ (lo - 1)) in M. fold (ofZ z) in M.
    rewrite (ofZ_exact (lo - 1)) in M by lia.
    destruct (ofZ z) as [| | |q]; cbn [le] in M; try discriminate.
    + cbn. reflexivity.
    + apply Qle_bool_iff in M. cbn [isNaN lt orb].
      assert (Hq : Qle_bool (inject_Z lo) q = false).
      { apply not_true_is_false. intros C. apply Qle_bool_iff in C.
        pose proof (Qle_trans _ _ _ C M) as D. rewrite <- Zle_Qle in D. lia. }
      rewrite Hq. reflexivity.
Qed.

Lemma parseInt_cases s : parseInt s = NaN \/ exists z, parseInt s = ofZ z.
Proof.
  unfold parseInt.
  destruct (match trimStart s with
            | String "-" r => ((-1)%Z, r)
            | String "+" r => (1%Z, r)
            | _ => (1%Z, trimStart s)
            end) as [sign s1].
  destruct (match s1 with
            | String "0" (String "x" r) => (16%Z, r)
            | String "0" (String "X" r) => (16%Z, r)
            | _ => (10%Z, s1)
            end) as [radix s2].
  destruct (digitsPrefix radix s2); eauto.
Qed.


Ltac each_char c :=
  destruct c as [[|] [|] [|] [|] [|] [|] [|] [|]].

Lemma digitValue_digit c :
  isDecimalDigit c = true -> digitValue 10 c = Some (code c - 48)%Z.
Proof. each_char c; intros H; try discriminate H; reflexivity. Qed.

Lemma digitValue_other c : isDecimalDigit c = false -> digitValue 10 c = None.
Proof. each_char c; intros H; try discriminate H; reflexivity. Qed.

Lemma trimStart_digit c r :
  isDecimalDigit c = true -> trimStart (String c r) = String c r.
Proof.
  each_char c; intros H; try discriminate H;
    destruct r as [|c2 [|c3 r3]]; reflexivity.
Qed.

Lemma sign_digit c r :
  isDecimalDigit c = true ->
  match String c r with
  | String "-" r' => ((-1)%Z, r')
  | String "+" r' => (1%Z, r')
  | _ => (1%Z, String c r)
  end = (1%Z, String c r).
Proof. each_char c; intros H; try discriminate H; reflexivity. Qed.

Lemma radix_decimal s :
  hexPrefixed s = false ->
  match s with
  | String "0" (String "x" r) => (16%Z, r)
  | String "0" (String "X" r) => (16%Z, r)
  | _ => (10%Z, s)
  end = (10%Z, s).
Proof.
  destruct s as [|c r]; [reflexivity|].
  each_char c; try reflexivity.
  destruct r as [|c2 r2]; [reflexivity|].
  each_char c2; intros H; try discriminate H; reflexivity.
Qed.

Lemma digitsPrefix_stop t : startsWithDigit t = false -> digitsPrefix 10 t = [].
Proof.
  destruct t as [|c r]; [reflexivity|]. cbn [startsWithDigit digitsPrefix].
  intros H. now rewrite (digitValue_other c H).
Qed.

Lemma digitsPrefix_digits ds t :
  allDigits ds = true -> startsWithDigit t = false ->
  digitsPrefix 10 (ds ++ t) =
  map (fun c => (code c - 48)%Z) (list_ascii_of_string ds).
Proof.
  intros Hd Ht. induction ds as [|c ds IH].
  - cbn. now apply digitsPrefix_stop.
  - unfold allDigits in Hd. cbn [list_ascii_of_string forallb] in Hd.
    apply andb_true_iff in Hd. destruct Hd as [Hc Hd].
    cbn [append digitsPrefix list_ascii_of_string map].
    rewrite (digitValue_digit c Hc). f_equal. apply IH, Hd.
Qed.

Lemma valueOf_decimal l acc :
  fold_left (fun a d => (a * 10 + d)%Z) (map (fun c => (code c - 48)%Z) l) acc =
  fold_left (fun a c => (10 * a + (code c - 48))%Z) l acc.
Proof.
  revert acc. induction l as [|c l IH]; intros acc; [reflexivity|].
  cbn [map fold_left]. rewrite IH. f_equal. lia.
Qed.

(** [parseInt] reads the leading decimal digits of a value, whatever follows
    them, unless the value opens with [0x] or [0X]. *)
Lemma parseInt_leading_digits ds t :
  allDigits ds = true -> ds <> "" -> startsWithDigit t = false ->
  hexPrefixed (ds ++ t) = false ->
  parseInt (ds ++ t) = ofZ (decimalValue ds).
Proof.
  intros Hd Hne Ht Hx.
  destruct ds as [|c ds]; [congruence|].
  assert (Hc : isDecimalDigit c = true).
  { unfold allDigits in Hd. cbn [list_ascii_of_string forallb] in Hd.
    now apply andb_true_iff in Hd. }
  unfold parseInt.
  change (String c ds ++ t) with (String c (ds ++ t)) in *.
  rewrite (trimStart_digit c _ Hc), (sign_digit c _ Hc), (radix_decimal _ Hx).
  change (String c (ds ++ t)) with (String c ds ++ t).
  rewrite (digitsPrefix_digits _ _ Hd Ht).
  cbn [list_ascii_of_string map]. f_equal. rewrite Z.mul_1_l.
  unfold valueOf, decimalValue. cbn [list_ascii_of_string].
  exact (valueOf_decimal (c :: list_ascii_of_string ds) 0%Z).
Qed.

Lemma hexPrefixed_digits ds : allDigits ds = true -> hexPrefixed (ds ++ "") = false.
Proof.
  destruct ds as [|c [|c2 r]]; [reflexivity | |].
  - intros _. cbn [append hexPrefixed]. each_char c; reflexivity.
  - unfold allDigits. cbn [list_ascii_of_string forallb].
    intros H. apply andb_true_iff in H. destruct H as [_ H].
    apply andb_true_iff in H. destruct H as [H _].
    cbn [append hexPrefixed].
    each_char c; try reflexivity; each_char c2; try reflexivity; discriminate H.
Qed.

Lemma append_empty (s : string) : s ++ "" = s.
Proof. induction s as [|c s IH]; [reflexivity|]. cbn. now rewrite IH. Qed.

Lemma parseInt_digits ds :
  allDigits ds = true -> ds <> "" -> parseInt ds = ofZ (decimalValue ds).
Proof.
  intros Hd Hne. rewrite <- (append_empty ds) at 1.
  apply parseInt_leading_digits; auto. now apply hexPrefixed_digits.
Qed.

End Parsing.

(** ** Percent-encoding and JSON quoting *)

Module Encoding.
Import JsNumber JsString Worker Props Parsing.
Local Open Scope string_scope.

Lemma append_assoc (a b c : string) : (a ++ b) ++ c = a ++ (b ++ c).
Proof. induction a as [|x a IH]; [reflexivity|]. cbn. now rewrite IH. Qed.

Lemma decode_encodeChar c t :
  decodeURIComponent (encodeChar c ++ t) =
  match decodeURIComponent t with
  | Some u => Some (String c u)
  | None => None
  end.
Proof. each_char c; reflexivity. Qed.

Lemma decode_encode s : decodeURIComponent (encodeURIComponent s) = Some s.
Proof.
  induction s as [|c s IH]; [reflexivity|].
  cbn [encodeURIComponent].
  now rewrite decode_encodeChar, IH.
Qed.

Lemma escapeAll_app a b : escapeAll (a ++ b) = escapeAll a ++ escapeAll b.
Proof.
  induction a as [|c a IH]; [reflexivity|].
  cbn [append escapeAll]. now rewrite IH, append_assoc.
Qed.

Lemma escapeAll_encodeChar c : escapeAll (encodeChar c) = encodeChar c.
Proof. each_char c; reflexivity. Qed.

(** Nothing in a percent-encoded string needs a JSON escape. *)
Lemma escapeAll_encode s : escapeAll (encodeURIComponent s) = encodeURIComponent s.
Proof.
  induction s as [|c s IH]; [reflexivity|].
  cbn [encodeURIComponent].
  now rewrite escapeAll_app, escapeAll_encodeChar, IH.
Qed.

Lemma stringify_dataUrl s :
  stringifyDataUrl ("data:image/svg+xml;charset=UTF-8," ++ encodeURIComponent s) =
  "{" ++ dq ++ "dataUrl" ++ dq ++ ":" ++ dq
  ++ "data:image/svg+xml;charset=UTF-8," ++ encodeURIComponent s ++ dq ++ "}".
Proof.
  unfold stringifyDataUrl, quoteJSONString.
  rewrite escapeAll_app, escapeAll_encode, !append_assoc. reflexivity.
Qed.

End Encoding.

(** ** The renderer *)

Module Rendering.
Import JsNumber JsString Worker Props JsNumberFacts Parsing Encoding.
Local Open Scope string_scope.

Lemma concatStrings_app l1 l2 :
  concatStrings (l1 ++ l2)%list = concatStrings l1 ++ concatStrings l2.
Proof.
  induction l1 as [|s l1 IH]; [reflexivity|].
  cbn [app concatStrings]. now rewrite IH, append_assoc.
Qed.

(** the loop over the columns of one row *)
Lemma columns_loop (dark : nat -> bool) (rect : nat -> string) cols svg :
  fold_left (fun svg col => if dark col then svg ++ rect col else svg) cols svg =
  svg ++ concatStrings (map rect (filter dark cols)).
Proof.
  revert svg. induction cols as [|col cols IH]; intros svg.
  - cbn. now rewrite append_empty.
  - cbn [fold_left filter]. rewrite IH. destruct (dark col); [|reflexivity].
    cbn [map concatStrings]. now rewrite append_assoc.
Qed.

Lemma row_cells (dark : nat -> nat -> bool) (rect : nat -> nat -> string) row cols :
  map (fun cell => rect (fst cell) (snd cell))
    (filter (fun cell => dark (fst cell) (snd cell)) (map (fun y => (row, y)) cols)) =
  map (rect row) (filter (dark row) cols).
Proof.
  induction cols as [|col cols IH]; [reflexivity|].
  cbn [map filter fst snd]. destruct (dark row col); cbn [map fst snd]; now rewrite IH.
Qed.

(** the two nested loops *)
Lemma rows_loop (dark : nat -> nat -> bool) (rect : nat -> nat -> string) rows cols svg :
  fold_left
    (fun svg row =>
       fold_left (fun svg col => if dark row col then svg ++ rect row col else svg)
         cols svg)
    rows svg =
  svg ++ concatStrings
           (map (fun cell => rect (fst cell) (snd cell))
              (filter (fun cell => dark (fst cell) (snd cell)) (list_prod rows cols))).
Proof.
  revert svg. induction rows as [|row rows IH]; intros svg.
  - cbn. now rewrite append_empty.
  - cbn [fold_left list_prod]. rewrite IH, columns_loop.
    rewrite filter_app, map_app, concatStrings_app, append_assoc.
    now rewrite row_cells.
Qed.

(** The document is the opening tag, the background, one rectangle for
    each dark cell in row-major order, and the closing tag. *)
Lemma generateSVG_structure qr size fgColor bgColor borderWidth :
  generateSVG qr size fgColor bgColor borderWidth =
  svgOpen size ++ svgBackground bgColor
  ++ concatStrings (map (rectOf qr size fgColor borderWidth) (darkCells qr))
  ++ "</svg>".
Proof.
  unfold generateSVG. cbv zeta.
  rewrite (rows_loop (isDark qr)
             (fun row col =>
                moduleRect (coordinate qr size borderWidth col)
                           (coordinate qr size borderWidth row)
                           (moduleSizeOf qr size borderWidth) fgColor)).
  fold (svgOpen size). 
  change ("<rect width=" ++ dq ++ "100%" ++ dq ++ " height=" ++ dq ++ "100%" ++ dq
          ++ " fill=" ++ dq ++ "#" ++ bgColor ++ dq ++ "/>") with (svgBackground bgColor).
  rewrite !append_assoc. reflexivity.
Qed.






(** *** Coordinates *)

Local Open Scope Q_scope.

Section Geometry.

Variables (qr : QrMatrix) (s b : Z).
Hypothesis size_range : (100 <= s <= 1000)%Z.
Hypothesis border_range : (0 <= b <= 20)%Z.
Hypothesis count_safe : (Z.of_nat (getModuleCount qr) + 2 * b < 2 ^ 53)%Z.

Let n : Z := Z.of_nat (getModuleCount qr).
Let d : Z := (n + 2 * b)%Z.
Let e : Q := pow2 (-53).

Lemma moduleSize_value :
  (0 < n)%Z ->
  exists m, moduleSizeOf qr (lit s) (lit b) = Fin m /\ 0 <= m.
Proof.
  intros Hn. unfold moduleSizeOf.
  rewrite mul_lit by lia. rewrite ofNat_lit by (subst n; lia).
  rewrite add_lit by (subst n; lia). unfold lit at 1 2. cbn [div].
  fold n. rewrite lit_pos by lia.
  destruct (round_between (inject_Z s / inject_Z (n + 2 * b)) 0 (inject_Z s)
              0 (inject_Z s)) as [m [E [L _]]].
  - assert (Hd : 1 <= inject_Z (n + 2 * b)).
    { change 1 with (inject_Z 1). rewrite <- Zle_Qle. lia. }
    assert (Hs : 0 <= inject_Z s).
    { change 0 with (inject_Z 0). rewrite <- Zle_Qle. lia. }
    split.
    + apply Qle_shift_div_l; lra.
    + apply Qle_shift_div_r; [lra|]. 
      rewrite <- (Qmult_1_r (inject_Z s)) at 1.
      apply Qmult_le_compat_nonneg; lra. 
  - reflexivity.
  - apply round_int. lia.
  - exists m. split; [exact E | exact L].
Qed.

Lemma coordinate_value i m :
  (Z.of_nat i < n)%Z ->
  moduleSizeOf qr (lit s) (lit b) = Fin m ->
  coordinate qr (lit s) (lit b) i = round (inject_Z (Z.of_nat i + b) * m).
Proof.
  intros Hi Hm. unfold coordinate. rewrite Hm.
  rewrite ofNat_lit by (subst n; lia). rewrite add_lit by (subst n; lia).
  reflexivity.
Qed.


Lemma moduleSize_error :
  (0 < n)%Z ->
  exists m,
    moduleSizeOf qr (lit s) (lit b) = Fin m
    /\ pow2 (-1022) <= m
    /\ inject_Z d * m <= 1001.
Proof.
  intros Hn.
  assert (Hd : (1 <= d < 2 ^ 53)%Z) by (subst d n; lia).
  assert (Hd1 : 1 <= inject_Z d).
  { change 1 with (inject_Z 1). rewrite <- Zle_Qle. lia. }
  assert (Hd2 : inject_Z d <= pow2 53).
  { rewrite <- (pow2_inject 53) by lia. rewrite <- Zle_Qle. lia. }
  assert (Hs1 : 100 <= inject_Z s).
  { change 100 with (inject_Z 100). rewrite <- Zle_Qle. lia. }
  assert (Hs2 : inject_Z s <= 1000).
  { change 1000 with (inject_Z 1000). rewrite <- Zle_Qle. lia. }
  destruct (moduleSize_value Hn)
    as [m [Hm Hm0]].
  exists m. split; [exact Hm|].
  assert (Hm' : round (inject_Z s / inject_Z d) = Fin m).
  { rewrite <- Hm. unfold moduleSizeOf.
    rewrite mul_lit by lia. rewrite ofNat_lit by (subst n; lia).
    rewrite add_lit by (subst d n; lia). unfold lit at 1 2. cbn [div].
    fold n. fold d. now rewrite lit_pos by lia. }
  set (q0 := inject_Z s / inject_Z d) in *.
  assert (Hdq : inject_Z d * q0 == inject_Z s).
  { unfold q0. field. lra. }
  assert (Hq0 : 100 * pow2 (-53) <= q0).
  { unfold q0. apply Qle_shift_div_l; [lra|].
    apply Qle_trans with (100 * (pow2 (-53) * pow2 53)).
    - rewrite <- !Qmult_assoc. apply Qmult_le_l; [reflexivity|].
      apply Qmult_le_l; [apply pow2_pos | exact Hd2].
    - rewrite <- pow2_add. change (pow2 (-53 + 53)) with 1. lra. }
  assert (Hnorm : pow2 (-1022) <= q0).
  { eapply Qle_trans; [|exact Hq0].
    apply Qle_trans with (pow2 (-53)); [apply pow2_le; lia|].
    pose proof (pow2_pos (-53)). lra. }
  destruct (round_rel_error q0 m (or_intror Hnorm) Hm') as [E1 E2].
  fold e in E1, E2, Hq0.
  assert (He : 0 < e) by apply pow2_pos.
  assert (He2 : e <= 1 # 2) by (unfold e; apply (pow2_le (-53) (-1)); lia).
  assert (Hq0pos : 0 <= q0) by lra.
  assert (Hqe : q0 * e <= q0 * (1 # 2)) by nra.
  split.
  - apply Qle_trans with (50 * pow2 (-53)).
    + apply Qle_trans with (pow2 (-53)); [apply pow2_le; lia|].
      pose proof (pow2_pos (-53)). lra.
    + fold e. lra.
  - assert (Hde : inject_Z d * (q0 * e) == inject_Z s * e) by (rewrite <- Hdq; ring).
    assert (Hse : inject_Z s * e <= 1).
    { apply Qle_trans with (1000 * e); [nra|].
      unfold e. apply Qle_trans with (pow2 10 * pow2 (-53)).
      - apply Qmult_le_compat_r; [|apply Qlt_le_weak, pow2_pos].
        change (pow2 10) with 1024. lra.
      - rewrite <- pow2_add. apply Qle_trans with (pow2 0); [apply pow2_le; lia|].
        change (pow2 0) with 1. lra. }
    assert (Hm1 : inject_Z d * m <= inject_Z d * (q0 + q0 * e)).
    { apply Qmult_le_l; lra. }
    rewrite Qmult_plus_distr_r, Hdq, Hde in Hm1. lra.
Qed.

Lemma product_value K m :
  (0 <= K <= d)%Z -> pow2 (-1022) <= m -> inject_Z d * m <= 1001 ->
  exists r,
    round (inject_Z K * m) = Fin r
    /\ r - inject_Z K * m <= inject_Z K * m * e
    /\ inject_Z K * m - r <= inject_Z K * m * e
    /\ inject_Z K * m <= 1001.
Proof.
  intros HK Hm Hdm.
  assert (Hm0 : 0 < m) by (pose proof (pow2_pos (-1022)); lra).
  assert (HK0 : 0 <= inject_Z K).
  { change 0 with (inject_Z 0). rewrite <- Zle_Qle. lia. }
  assert (HKd : inject_Z K <= inject_Z d) by (rewrite <- Zle_Qle; lia).
  assert (Hle : inject_Z K * m <= 1001).
  { eapply Qle_trans; [|exact Hdm]. apply Qmult_le_compat_r; lra. }
  destruct (round_between (inject_Z K * m) 0 1001 0 1001) as [r [Hr _]].
  - split; [apply Qmult_le_0_compat; lra | exact Hle].
  - reflexivity.
  - apply (round_int 1001). lia.
  - exists r. split; [exact Hr|].
    assert (Hz : inject_Z K * m == 0 \/ pow2 (-1022) <= inject_Z K * m).
    { destruct (Z.eq_dec K 0) as [->|Hne].
      - left. ring.
      - right. assert (H1 : 1 <= inject_Z K).
        { change 1 with (inject_Z 1). rewrite <- Zle_Qle. lia. }
        apply Qle_trans with (1 * m); [lra|]. apply Qmult_le_compat_r; lra. }
    destruct (round_rel_error _ r Hz Hr) as [E1 E2]. fold e in E1, E2.
    repeat split; assumption.
Qed.


End Geometry.

End Rendering.

(** ** What the handler depends on, and when it answers 200 *)

Module HandlerFacts.
Import JsNumber JsString Worker Props JsNumberFacts ControlFlow Parsing Encoding Rendering.
Local Open Scope string_scope.

Section WithEncoder.
Variable qrcode : option string -> string -> Thrown + QrMatrix.

(** The handler reads the request through seven values only. *)
Lemma fetch_ext r1 r2 :
  textOf r1 = textOf r2 -> sizeOf r1 = sizeOf r2 ->
  fgColorOf r1 = fgColorOf r2 -> bgColorOf r1 = bgColorOf r2 ->
  ecLevelOf r1 = ecLevelOf r2 -> borderWidthOf r1 = borderWidthOf r2 ->
  formatOf r1 = formatOf r2 ->
  fetch qrcode r1 = fetch qrcode r2.
Proof.
  intros Ht Hs Hf Hb He Hw Hfmt. rewrite !fetch_checks.
  unfold fails, attempt. now rewrite Ht, Hs, Hf, Hb, He, Hw, Hfmt.
Qed.

(** Each of the seven values depends on the request through the first value
    under its name, and only on whether that value is empty. *)
Lemma values_ext r1 r2 :
  (forall name, In name paramNames ->
                nonEmpty (get name r1) = nonEmpty (get name r2)) ->
  textOf r1 = textOf r2 /\ sizeOf r1 = sizeOf r2 /\
  fgColorOf r1 = fgColorOf r2 /\ bgColorOf r1 = bgColorOf r2 /\
  ecLevelOf r1 = ecLevelOf r2 /\ borderWidthOf r1 = borderWidthOf r2 /\
  formatOf r1 = formatOf r2.
Proof.
  intros H.
  assert (Hfmt : nonEmpty (option_map toLowerCase (get "format" r1))
                 = nonEmpty (option_map toLowerCase (get "format" r2))).
  { pose proof (H "format" ltac:(cbn; tauto)) as E.
    destruct (get "format" r1) as [[|c1 s1]|], (get "format" r2) as [[|c2 s2]|];
      cbn in E |- *; congruence. }
  unfold textOf, sizeOf, fgColorOf, bgColorOf, ecLevelOf, borderWidthOf, formatOf, orElse.
  rewrite Hfmt.
  rewrite (H "url"), (H "size"), (H "fgColor"), (H "bgColor"), (H "ecLevel"),
    (H "borderWidth") by (cbn; tauto).
  repeat split; reflexivity.
Qed.

Lemma get_without name name' r :
  get name' (without name r) = if String.eqb name' name then None else get name' r.
Proof.
  induction r as [|[k v] r IH].
  - cbn. now destruct (String.eqb name' name).
  - cbn [without filter fst]. fold (without name r).
    destruct (String.eqb k name) eqn:Ek; cbn [negb get].
    + rewrite IH. apply String.eqb_eq in Ek. subst k.
      destruct (String.eqb name' name) eqn:En; [reflexivity|].
      rewrite String.eqb_sym, En. reflexivity.
    + destruct (String.eqb k name') eqn:Ek'; [|exact IH].
      apply String.eqb_eq in Ek'. subst k. now rewrite Ek.
Qed.

(** A 200 response comes out of a request that passed every check and an
    encoder that returned a matrix. *)
Lemma fetch_200 r resp :
  responseOf (fetch qrcode r) = Some resp -> status resp = 200%Z ->
  allPass r /\ exists qr, qrcode (Some (ecLevelOf r)) (textOf r) = inr qr.
Proof.
  rewrite fetch_checks. intros H Hs.
  destruct (fails CheckSize r) eqn:E0;
    [injection H as <-; discriminate Hs|].
  destruct (fails CheckColor r) eqn:E1;
    [injection H as <-; discriminate Hs|].
  destruct (fails CheckEcLevel r) eqn:E2;
    [injection H as <-; discriminate Hs|].
  destruct (fails CheckBorderWidth r) eqn:E3;
    [injection H as <-; discriminate Hs|].
  destruct (fails CheckFormat r) eqn:E4;
    [injection H as <-; discriminate Hs|].
  split; [intros c; destruct c; assumption|].
  destruct (qrcode (Some (ecLevelOf r)) (textOf r)) as [e|qr] eqn:Eq; [|eauto].
  rewrite (attempt_thrown qrcode r e E2 Eq) in H.
  injection H as <-. discriminate Hs.
Qed.

Lemma fetch_returns r : exists t resp, fetch qrcode r = (t, inr resp).
Proof.
  rewrite fetch_checks.
  destruct (fails CheckSize r); [unfold ret; eauto|].
  destruct (fails CheckColor r); [unfold ret; eauto|].
  destruct (fails CheckEcLevel r) eqn:E2; [unfold ret; eauto|].
  destruct (fails CheckBorderWidth r); [unfold ret; eauto|].
  destruct (fails CheckFormat r) eqn:E4; [unfold ret; eauto|].
  destruct (qrcode (Some (ecLevelOf r)) (textOf r)) as [e|qr] eqn:Eq.
  - rewrite (attempt_thrown qrcode r e E2 Eq). eauto.
  - destruct (format_cases r E4) as [F|F].
    + rewrite (attempt_svg qrcode r qr E2 Eq F). eauto.
    + rewrite (attempt_png qrcode r qr E2 Eq F). eauto.
Qed.

End WithEncoder.

Lemma orElse_nonEmpty v d : v <> "" -> orElse (Some v) d = v.
Proof. destruct v; [congruence | reflexivity]. Qed.

Lemma nonEmpty_some v : v <> "" -> nonEmpty (Some v) = Some v.
Proof. destruct v; [congruence | reflexivity]. Qed.

Lemma toLowerCase_nonEmpty v : v <> "" -> toLowerCase v <> "".
Proof. destruct v; [congruence | discriminate]. Qed.

End HandlerFacts.

(** ** The claims of the specification *)

Module Claims.
Import JsNumber JsString Worker Props.
Import JsNumberFacts ControlFlow Parsing Encoding Rendering HandlerFacts.
Local Open Scope string_scope.



(** C5, as amended.  The handler always returns a response.  When every
    check has passed and the encoder throws, the response is 500.  Its body
    is ["Error generating QR code: "] followed by the message of the thrown
    value when that value is an instance of [Error], be the message empty;
    and followed by ["Unknown error occurred"] when the thrown value is
    anything else, whatever text it carries. *)
Theorem C5_encoder_failure qrcode r :
  (exists resp, snd (fetch qrcode r) = inr resp)
  /\ (allPass r ->
      forall m, qrcode (Some (ecLevelOf r)) (textOf r) = inl (ThrownError m) ->
      responseOf (fetch qrcode r) =
      Some (newResponse ("Error generating QR code: " ++ m) (Some 500%Z) []))
  /\ (allPass r ->
      forall v, qrcode (Some (ecLevelOf r)) (textOf r) = inl (ThrownValue v) ->
      responseOf (fetch qrcode r) =
      Some (newResponse "Error generating QR code: Unknown error occurred"
              (Some 500%Z) [])).
Proof.
  split; [|split].
  - destruct (fetch_returns qrcode r) as [t [resp E]]. exists resp. now rewrite E.
  - intros Hp m Hq. rewrite (fetch_all_pass qrcode r Hp).
    now rewrite (attempt_thrown qrcode r _ (Hp CheckEcLevel) Hq).
  - intros Hp v Hq. rewrite (fetch_all_pass qrcode r Hp).
    now rewrite (attempt_thrown qrcode r _ (Hp CheckEcLevel) Hq).
Qed.

Lemma C5_witness :
  let r := [("url", "https://example.com/a/path/longer/than/the/stub/holds")] in
  let failing := fun (_ : option string) (_ : string) =>
                   @inl Thrown QrMatrix (ThrownError "bad mode") in
  allPass r
  /\ responseOf (fetch failing r) =
     Some (newResponse "Error generating QR code: bad mode" (Some 500%Z) [])
  /\ stubQrcode (Some (ecLevelOf r)) (textOf r)
     = inl (ThrownValue "code length overflow. (436>272)")
  /\ responseOf (fetch stubQrcode r) =
     Some (newResponse "Error generating QR code: Unknown error occurred"
             (Some 500%Z) []).
Proof.
  intros r failing.
  assert (Hp : allPass r) by (intros c; destruct c; reflexivity).
  split; [exact Hp|]. split; [|split; [reflexivity|]].
  - exact (proj1 (proj2 (C5_encoder_failure failing r)) Hp _ eq_refl).
  - exact (proj2 (proj2 (C5_encoder_failure stubQrcode r)) Hp _ eq_refl).
Defined.

(** C5 as stated fails.  The encoder throws a string that says what went
    wrong, and the body of the 500 response does not carry it: it reads
    ["Unknown error occurred"].  And an [Error] without a message gives the
    bare prefix, not ["Unknown error occurred"]. *)
Lemma C5_counterexample :
  let r := [("url", "https://example.com/a/path/longer/than/the/stub/holds")] in
  let silent := fun (_ : option string) (_ : string) =>
                  @inl Thrown QrMatrix (ThrownError "") in
  (allPass r
   /\ stubQrcode (Some (ecLevelOf r)) (textOf r)
      = inl (ThrownValue "code length overflow. (436>272)")
   /\ exists resp,
        responseOf (fetch stubQrcode r) = Some resp
        /\ status resp = 500%Z
        /\ body resp = "Error generating QR code: Unknown error occurred"
        /\ body resp <> "Error generating QR code: " ++ "code length overflow. (436>272)")
  /\ (exists resp,
        responseOf (fetch silent []) = Some resp
        /\ status resp = 500%Z
        /\ body resp = "Error generating QR code: "
        /\ body resp <> "Error generating QR code: " ++ "Unknown error occurred").
Proof.
  intros r silent. split.
  - split; [intros c; destruct c; reflexivity|]. split; [reflexivity|].
    eexists. split; [reflexivity|]. repeat split. discriminate.
  - eexists. split; [reflexivity|]. repeat split. discriminate.
Qed.


(** C7.  The size range is inclusive at both ends: [size=50] and
    [size=1001] are answered 400 with the size message, [size=100] and
    [size=1000] pass the size check and give 200 once the other checks pass
    and the encoder returns a matrix; in general a size that [parseInt]
    reads as the integer [z] passes exactly when [100 <= z <= 1000]. *)
Theorem C7_size_range_inclusive qrcode r :
  (forall sv, sv = "50" \/ sv = "1001" -> get "size" r = Some sv ->
     fetch qrcode r =
     ([], inr (newResponse ("Error: " ++ "Size must be between 100 and 1000")
                 (Some 400%Z) [])))
  /\ (forall sv, sv = "100" \/ sv = "1000" -> get "size" r = Some sv ->
        fails CheckSize r = false
        /\ ((forall c, c <> CheckSize -> fails c r = false) ->
            forall qr, qrcode (Some (ecLevelOf r)) (textOf r) = inr qr ->
            exists resp, responseOf (fetch qrcode r) = Some resp /\ status resp = 200%Z))
  /\ (forall sv z, get "size" r = Some sv -> sv <> "" -> parseInt sv = ofZ z ->
        (fails CheckSize r = false <-> (100 <= z <= 1000)%Z)).
Proof.
  split; [|split].
  - intros sv Hsv Hg.
    assert (Hf : fails CheckSize r = true).
    { cbn [fails]. unfold sizeOf. rewrite Hg. destruct Hsv as [-> | ->]; reflexivity. }
    rewrite (fetch_first_failure qrcode r CheckSize Hf); [reflexivity|].
    intros c'. destruct c'; cbn [rank]; lia.
  - intros sv Hsv Hg.
    assert (Hf : fails CheckSize r = false).
    { cbn [fails]. unfold sizeOf. rewrite Hg. destruct Hsv as [-> | ->]; reflexivity. }
    split; [exact Hf|]. intros Hothers qr Hq.
    assert (Hp : allPass r).
    { intros c. destruct c; try (apply Hothers; discriminate). exact Hf. }
    rewrite (fetch_all_pass qrcode r Hp).
    destruct (format_cases r (Hp CheckFormat)) as [F|F].
    + rewrite (attempt_svg qrcode r qr (Hp CheckEcLevel) Hq F).
      eexists; split; reflexivity.
    + rewrite (attempt_png qrcode r qr (Hp CheckEcLevel) Hq F).
      eexists; split; reflexivity.
  - intros sv z Hg Hne Hz. cbn [fails]. unfold sizeOf.
    rewrite Hg, (nonEmpty_some sv Hne), Hz.
    rewrite outside_ofZ by (cbn; lia).
    rewrite negb_false_iff, andb_true_iff, !Z.leb_le. tauto.
Qed.

Lemma C7_witness :
  fetch stubQrcode [("size", "50")] =
    ([], inr (newResponse "Error: Size must be between 100 and 1000" (Some 400%Z) []))
  /\ fetch stubQrcode [("size", "1001")] =
    ([], inr (newResponse "Error: Size must be between 100 and 1000" (Some 400%Z) []))
  /\ (exists resp, responseOf (fetch stubQrcode [("size", "100")]) = Some resp
                   /\ status resp = 200%Z)
  /\ (exists resp, responseOf (fetch stubQrcode [("size", "1000")]) = Some resp
                   /\ status resp = 200%Z).
Proof.
  split; [|split; [|split]].
  - apply (proj1 (C7_size_range_inclusive stubQrcode [("size", "50")]) "50");
      [left|]; reflexivity.
  - apply (proj1 (C7_size_range_inclusive stubQrcode [("size", "1001")]) "1001");
      [right|]; reflexivity.
  - apply (proj2 (proj1 (proj2 (C7_size_range_inclusive stubQrcode [("size", "100")]))
                    "100" (or_introl eq_refl) eq_refl)) with (qr := stubMatrix).
    + intros c _. destruct c; reflexivity.
    + reflexivity.
  - apply (proj2 (proj1 (proj2 (C7_size_range_inclusive stubQrcode [("size", "1000")]))
                    "1000" (or_intror eq_refl) eq_refl)) with (qr := stubMatrix).
    + intros c _. destruct c; reflexivity.
    + reflexivity.
Defined.

(** C8.  A request that carries none of the seven parameters is answered
    200 with Content-Type image/svg+xml, and the body is the document
    rendered from the matrix of ["https://example.com"] at level M with size
    300, foreground 000000, background FFFFFF and border 4. *)
Theorem C8_defaults qrcode r qr :
  (forall name, In name paramNames -> get name r = None) ->
  qrcode (Some "M") "https://example.com" = inr qr ->
  fetch qrcode r =
  ([CallEncoder (Some "M") "https://example.com"; CallGenerateSVG],
   inr {| status := 200;
          headers := svgHeaders;
          body := generateSVG qr (lit 300) "000000" "FFFFFF" (lit 4) |})
  /\ In ("Content-Type", "image/svg+xml") svgHeaders.
Proof.
  intros Hn Hq. split; [|cbn; tauto].
  assert (E : fetch qrcode r = fetch qrcode []).
  { destruct (values_ext r []) as (A & B & C & D & E & F & G).
    - intros name Hname. rewrite (Hn name Hname). reflexivity.
    - now apply fetch_ext. }
  rewrite E. rewrite (fetch_all_pass qrcode []) by (intros c; destruct c; reflexivity).
  rewrite (attempt_svg qrcode [] qr); [reflexivity | reflexivity | exact Hq | reflexivity].
Qed.

Lemma C8_witness :
  fetch stubQrcode [] =
  ([CallEncoder (Some "M") "https://example.com"; CallGenerateSVG],
   inr {| status := 200;
          headers := svgHeaders;
          body := generateSVG stubMatrix (lit 300) "000000" "FFFFFF" (lit 4) |})
  /\ In ("Content-Type", "image/svg+xml") svgHeaders.
Proof.
  apply C8_defaults.
  - intros name _. reflexivity.
  - reflexivity.
Defined.

(** C9.  The handler is a function of the query parameters: two requests
    that give the same value to each of the seven parameters get the same
    response, byte for byte, from the same encoder. *)
Theorem C9_deterministic qrcode r1 r2 :
  (forall name, In name paramNames -> get name r1 = get name r2) ->
  fetch qrcode r1 = fetch qrcode r2.
Proof.
  intros H.
  destruct (values_ext r1 r2) as (A & B & C & D & E & F & G).
  - intros name Hname. now rewrite (H name Hname).
  - now apply fetch_ext.
Qed.

Lemma C9_witness :
  fetch stubQrcode [("size", "200"); ("utm", "x"); ("size", "999")] =
  fetch stubQrcode [("size", "200")].
Proof.
  apply C9_deterministic.
  intros name Hname. cbn in Hname.
  repeat (destruct Hname as [<- | Hname]; [reflexivity|]). contradiction.
Defined.


(** *** Text parameters: present, empty, invalid *)

Lemma invalid_text_fails r p v :
  get (paramName p) r = Some v -> v <> "" -> accepts p v = false ->
  fails (checkOf p) r = true.
Proof.
  intros Hg Hne Ha. destruct p; cbn [paramName checkOf accepts fails] in *.
  - unfold fgColorOf. rewrite Hg, (orElse_nonEmpty v _ Hne), Ha. reflexivity.
  - unfold bgColorOf. rewrite Hg, (orElse_nonEmpty v _ Hne), Ha. apply orb_true_r.
  - unfold ecLevelOf. rewrite Hg, (orElse_nonEmpty v _ Hne), Ha. reflexivity.
  - unfold formatOf. rewrite Hg. cbn [option_map].
    rewrite (orElse_nonEmpty _ _ (toLowerCase_nonEmpty v Hne)), Ha. reflexivity.
Qed.

Lemma rank_inj c c' : rank c = rank c' -> c = c'.
Proof. destruct c, c'; cbn; intros H; congruence. Qed.

Lemma empty_is_absent qrcode r name :
  get name r = Some "" -> fetch qrcode r = fetch qrcode (without name r).
Proof.
  intros Hg.
  destruct (values_ext r (without name r)) as (A & B & C & D & E & F & G).
  - intros name' _. rewrite get_without.
    destruct (String.eqb name' name) eqn:En; [|reflexivity].
    apply String.eqb_eq in En. subst name'. now rewrite Hg.
  - now apply fetch_ext.
Qed.

(** C1, as amended.  A default is applied when the parameter is absent or
    given as the empty string, which the handler does not tell apart from
    an absent one.  A request that gives fgColor, bgColor, ecLevel or format
    a value that is not empty and fails its rule gets a 400 response and no
    default: the response of that parameter's check when the checks before
    it pass, the response of the earliest failing check otherwise. *)
Theorem C1_invalid_text_rejected qrcode r :
  (forall p v,
     get (paramName p) r = Some v -> v <> "" -> accepts p v = false ->
     exists c,
       (rank c <= rank (checkOf p))%nat
       /\ fails c r = true
       /\ (forall c', (rank c' < rank c)%nat -> fails c' r = false)
       /\ fetch qrcode r = ([], inr (rejection c))
       /\ status (rejection c) = 400%Z
       /\ ((forall c', (rank c' < rank (checkOf p))%nat -> fails c' r = false) ->
           c = checkOf p))
  /\ (forall name, get name r = Some "" ->
        fetch qrcode r = fetch qrcode (without name r)).
Proof.
  split.
  - intros p v Hg Hne Ha.
    pose proof (invalid_text_fails r p v Hg Hne Ha) as Hf.
    destruct (first_failure_exists r _ Hf) as [c [Hr [Hc Hb]]].
    exists c. split; [exact Hr|]. split; [exact Hc|]. split; [exact Hb|].
    split; [|split; [reflexivity|]].
    + now rewrite (fetch_first_failure qrcode r c Hc Hb).
    + intros Hearlier. apply rank_inj.
      destruct (Nat.eq_dec (rank c) (rank (checkOf p))) as [E|E]; [exact E|].
      rewrite (Hearlier c) in Hc by lia. discriminate Hc.
  - intros name. apply empty_is_absent.
Qed.

Lemma C1_witness :
  (exists c,
     (rank c <= rank CheckEcLevel)%nat
     /\ fails c [("ecLevel", "m")] = true
     /\ (forall c', (rank c' < rank c)%nat -> fails c' [("ecLevel", "m")] = false)
     /\ fetch stubQrcode [("ecLevel", "m")] = ([], inr (rejection c))
     /\ status (rejection c) = 400%Z
     /\ ((forall c', (rank c' < rank CheckEcLevel)%nat ->
          fails c' [("ecLevel", "m")] = false) -> c = CheckEcLevel))
  /\ fetch stubQrcode [("bgColor", "")] = fetch stubQrcode [].
Proof.
  split.
  - apply (proj1 (C1_invalid_text_rejected stubQrcode [("ecLevel", "m")])
             ParamEcLevel "m"); [reflexivity | discriminate | reflexivity].
  - apply (proj2 (C1_invalid_text_rejected stubQrcode [("bgColor", "")]) "bgColor").
    reflexivity.
Defined.

(** C1 as stated fails: an empty fgColor matches none of the accepted
    shapes, and the answer is the 200 response of the request without
    parameters, drawn in the default colour. *)
Lemma C1_counterexample :
  get "fgColor" [("fgColor", "")] = Some ""
  /\ accepts ParamFgColor "" = false
  /\ fetch stubQrcode [("fgColor", "")] = fetch stubQrcode []
  /\ exists resp, responseOf (fetch stubQrcode [("fgColor", "")]) = Some resp
                  /\ status resp = 200%Z.
Proof.
  split; [reflexivity|]. split; [reflexivity|].
  assert (E : fetch stubQrcode [("fgColor", "")] = fetch stubQrcode []).
  { apply (empty_is_absent stubQrcode [("fgColor", "")] "fgColor"). reflexivity. }
  split; [exact E|]. rewrite E.
  rewrite (fetch_all_pass stubQrcode []) by (intros c; destruct c; reflexivity).
  rewrite (attempt_svg stubQrcode [] stubMatrix) by reflexivity.
  eexists. split; reflexivity.
Qed.

(** C2, as amended.  The body of a 400 response is ["Error: "] followed by
    the message.  A size that is not empty and that [parseInt] reads as
    [NaN] or as an integer outside [100, 1000] gives the size message; when
    the size check passes, an fgColor or bgColor that is not empty and is not
    six hexadecimal digits gives the colour message. *)
Theorem C2_validation_bodies qrcode r :
  (forall sv,
     get "size" r = Some sv -> sv <> "" ->
     (parseInt sv = NaN
      \/ exists z, parseInt sv = ofZ z /\ (z < 100 \/ 1000 < z)%Z) ->
     responseOf (fetch qrcode r) =
     Some (newResponse ("Error: " ++ "Size must be between 100 and 1000")
             (Some 400%Z) []))
  /\ (forall name color,
        name = "fgColor" \/ name = "bgColor" ->
        fails CheckSize r = false ->
        get name r = Some color -> color <> "" -> isValidHexColor color = false ->
        responseOf (fetch qrcode r) =
        Some (newResponse ("Error: " ++ "Invalid color format. Use hex format without #")
                (Some 400%Z) [])).
Proof.
  split.
  - intros sv Hg Hne Hbad.
    assert (Hf : fails CheckSize r = true).
    { cbn [fails]. unfold sizeOf. rewrite Hg, (nonEmpty_some sv Hne).
      destruct Hbad as [-> | [z [-> Hz]]]; [reflexivity|].
      rewrite outside_ofZ by (cbn; lia).
      apply negb_true_iff, andb_false_iff. rewrite !Z.leb_gt. lia. }
    rewrite (fetch_first_failure qrcode r CheckSize Hf); [reflexivity|].
    intros c'. destruct c'; cbn [rank]; lia.
  - intros name color Hname Hsize Hg Hne Hbad.
    assert (Hf : fails CheckColor r = true).
    { destruct Hname as [-> | ->].
      - exact (invalid_text_fails r ParamFgColor color Hg Hne Hbad).
      - exact (invalid_text_fails r ParamBgColor color Hg Hne Hbad). }
    rewrite (fetch_first_failure qrcode r CheckColor Hf); [reflexivity|].
    intros c'. destruct c'; cbn [rank]; intros; try lia. exact Hsize.
Qed.

Lemma C2_witness :
  responseOf (fetch stubQrcode [("size", "abc")]) =
    Some (newResponse "Error: Size must be between 100 and 1000" (Some 400%Z) [])
  /\ responseOf (fetch stubQrcode [("size", "1500")]) =
    Some (newResponse "Error: Size must be between 100 and 1000" (Some 400%Z) [])
  /\ responseOf (fetch stubQrcode [("bgColor", "#FFFFFF")]) =
    Some (newResponse "Error: Invalid color format. Use hex format without #"
            (Some 400%Z) []).
Proof.
  split; [|split].
  - apply (proj1 (C2_validation_bodies stubQrcode [("size", "abc")]) "abc");
      [reflexivity | discriminate | left; reflexivity].
  - apply (proj1 (C2_validation_bodies stubQrcode [("size", "1500")]) "1500");
      [reflexivity | discriminate |].
    right. exists 1500%Z. split; [reflexivity | lia].
  - apply (proj2 (C2_validation_bodies stubQrcode [("bgColor", "#FFFFFF")])
             "bgColor" "#FFFFFF");
      [right; reflexivity | reflexivity | reflexivity | discriminate | reflexivity].
Defined.

(** C2 as stated fails: the body for [size=50] is not the bare message, it
    opens with ["Error: "]; and an empty size, which is not a number, is
    not rejected at all. *)
Lemma C2_counterexample :
  (exists resp,
     responseOf (fetch stubQrcode [("size", "50")]) = Some resp
     /\ status resp = 400%Z
     /\ body resp = "Error: Size must be between 100 and 1000"
     /\ body resp <> "Size must be between 100 and 1000")
  /\ (exists resp,
        responseOf (fetch stubQrcode [("size", "")]) = Some resp
        /\ status resp = 200%Z).
Proof.
  split.
  - eexists. split; [reflexivity|]. repeat split. discriminate.
  - assert (E : fetch stubQrcode [("size", "")] = fetch stubQrcode []).
    { apply (empty_is_absent stubQrcode [("size", "")] "size"). reflexivity. }
    rewrite E.
    rewrite (fetch_all_pass stubQrcode []) by (intros c; destruct c; reflexivity).
    rewrite (attempt_svg stubQrcode [] stubMatrix) by reflexivity.
    eexists. split; reflexivity.
Qed.


(** *** Numeric parameters with trailing characters *)

Lemma append_nonEmpty (a b : string) : a <> "" -> a ++ b <> "".
Proof. destruct a; [congruence | discriminate]. Qed.

Lemma values_but r1 r2 name :
  (forall name', In name' paramNames -> name' <> name -> get name' r1 = get name' r2) ->
  (name <> "url" -> textOf r1 = textOf r2)
  /\ (name <> "size" -> sizeOf r1 = sizeOf r2)
  /\ (name <> "fgColor" -> fgColorOf r1 = fgColorOf r2)
  /\ (name <> "bgColor" -> bgColorOf r1 = bgColorOf r2)
  /\ (name <> "ecLevel" -> ecLevelOf r1 = ecLevelOf r2)
  /\ (name <> "borderWidth" -> borderWidthOf r1 = borderWidthOf r2)
  /\ (name <> "format" -> formatOf r1 = formatOf r2).
Proof.
  intros H.
  unfold textOf, sizeOf, fgColorOf, bgColorOf, ecLevelOf, borderWidthOf, formatOf.
  repeat split; intros Hn;
    match goal with
    | |- context [get ?k r1] =>
        rewrite (H k) by (first [cbn; tauto | congruence])
    end; reflexivity.
Qed.

(** C10, as amended.  [parseInt] reads the leading decimal digits of a
    size or borderWidth and ignores what follows them, unless the value
    opens with [0x] or [0X], which switches it to hexadecimal: for digits
    [ds] followed by [t], where [t] does not start with a digit, the value
    [ds ++ t] is read as the integer [ds] denotes, the range check is made
    on that integer, and the request is answered as if the value were
    [ds]. *)
Theorem C10_leading_digits ds t :
  allDigits ds = true -> ds <> "" -> startsWithDigit t = false ->
  hexPrefixed (ds ++ t) = false ->
  parseInt (ds ++ t) = ofZ (decimalValue ds)
  /\ (forall qrcode r1 r2,
        get "size" r1 = Some (ds ++ t) -> get "size" r2 = Some ds ->
        (forall name, In name paramNames -> name <> "size" ->
                      get name r1 = get name r2) ->
        (fails CheckSize r1 = false <-> (100 <= decimalValue ds <= 1000)%Z)
        /\ fetch qrcode r1 = fetch qrcode r2)
  /\ (forall qrcode r1 r2,
        get "borderWidth" r1 = Some (ds ++ t) -> get "borderWidth" r2 = Some ds ->
        (forall name, In name paramNames -> name <> "borderWidth" ->
                      get name r1 = get name r2) ->
        (fails CheckBorderWidth r1 = false <-> (0 <= decimalValue ds <= 20)%Z)
        /\ fetch qrcode r1 = fetch qrcode r2).
Proof.
  intros Hd Hne Ht Hx.
  pose proof (parseInt_leading_digits ds t Hd Hne Ht Hx) as P.
  pose proof (parseInt_digits ds Hd Hne) as P'.
  split; [exact P|]. split.
  - intros qrcode r1 r2 H1 H2 Hrest.
    assert (S1 : sizeOf r1 = ofZ (decimalValue ds)).
    { unfold sizeOf. now rewrite H1, (nonEmpty_some _ (append_nonEmpty ds t Hne)). }
    assert (S2 : sizeOf r2 = ofZ (decimalValue ds)).
    { unfold sizeOf. now rewrite H2, (nonEmpty_some _ Hne). }
    split.
    + cbn [fails]. rewrite S1, outside_ofZ by (cbn; lia).
      rewrite negb_false_iff, andb_true_iff, !Z.leb_le. tauto.
    + destruct (values_but r1 r2 "size" Hrest) as (A & _ & C & D & E & F & G).
      apply fetch_ext; try congruence;
        first [apply A | apply C | apply D | apply E | apply F | apply G]; discriminate.
  - intros qrcode r1 r2 H1 H2 Hrest.
    assert (S1 : borderWidthOf r1 = ofZ (decimalValue ds)).
    { unfold borderWidthOf.
      now rewrite H1, (nonEmpty_some _ (append_nonEmpty ds t Hne)). }
    assert (S2 : borderWidthOf r2 = ofZ (decimalValue ds)).
    { unfold borderWidthOf. now rewrite H2, (nonEmpty_some _ Hne). }
    split.
    + cbn [fails]. rewrite S1, outside_ofZ by (cbn; lia).
      rewrite negb_false_iff, andb_true_iff, !Z.leb_le. tauto.
    + destruct (values_but r1 r2 "borderWidth" Hrest) as (A & B & C & D & E & _ & G).
      apply fetch_ext; try congruence;
        first [apply A | apply B | apply C | apply D | apply E | apply G]; discriminate.
Qed.

Lemma C10_witness :
  parseInt "300abc" = ofZ 300
  /\ parseInt "150.9" = ofZ 150
  /\ fetch stubQrcode [("size", "300abc")] = fetch stubQrcode [("size", "300")]
  /\ fetch stubQrcode [("size", "150.9")] = fetch stubQrcode [("size", "150")].
Proof.
  assert (H300 := C10_leading_digits "300" "abc" eq_refl ltac:(discriminate) eq_refl eq_refl).
  assert (H150 := C10_leading_digits "150" ".9" eq_refl ltac:(discriminate) eq_refl eq_refl).
  split; [exact (proj1 H300)|]. split; [exact (proj1 H150)|]. split.
  - apply (proj1 (proj2 H300) stubQrcode [("size", "300abc")] [("size", "300")]);
      try reflexivity.
    intros name _ Hn. cbn [get]. destruct (String.eqb "size" name) eqn:E; [|reflexivity].
    apply String.eqb_eq in E. congruence.
  - apply (proj1 (proj2 H150) stubQrcode [("size", "150.9")] [("size", "150")]);
      try reflexivity.
    intros name _ Hn. cbn [get]. destruct (String.eqb "size" name) eqn:E; [|reflexivity].
    apply String.eqb_eq in E. congruence.
Defined.

(** C10 as stated fails: in [borderWidth=0x1F] the leading digit [0] is an
    integer of the range [0, 20] and [x1F] is not numeric, yet the value is
    read in base 16 as 31 and the request is rejected. *)
Lemma C10_counterexample :
  allDigits "0" = true
  /\ startsWithDigit "x1F" = false
  /\ (0 <= decimalValue "0" <= 20)%Z
  /\ parseInt ("0" ++ "x1F") = lit 31
  /\ fetch stubQrcode [("borderWidth", "0x1F")] =
     ([], inr (newResponse "Error: Border width must be between 0 and 20"
                 (Some 400%Z) [])).
Proof. repeat split; try reflexivity; cbn; lia. Qed.


(** *** The two output formats *)

(** C4.  Take a request answered 200 in the svg format and the same
    request with format png (every other parameter has the same value).
    The png request is answered 200 with Content-Type application/json, its
    body is the JSON text of the object whose only field, dataUrl, is
    ["data:image/svg+xml;charset=UTF-8,"] followed by a percent-encoded
    string (which needs no JSON escape), and decoding that string gives
    back the body of the svg response. *)
Theorem C4_png_wraps_svg qrcode rsvg rpng svgResp :
  (forall name, In name paramNames -> name <> "format" ->
                get name rpng = get name rsvg) ->
  formatOf rsvg = "svg" -> formatOf rpng = "png" ->
  responseOf (fetch qrcode rsvg) = Some svgResp -> status svgResp = 200%Z ->
  exists encoded,
    let dataUrl := "data:image/svg+xml;charset=UTF-8," ++ encoded in
    responseOf (fetch qrcode rpng) =
    Some {| status := 200;
            headers := jsonHeaders;
            body := stringifyDataUrl dataUrl |}
    /\ stringifyDataUrl dataUrl =
       "{" ++ dq ++ "dataUrl" ++ dq ++ ":" ++ dq ++ dataUrl ++ dq ++ "}"
    /\ In ("Content-Type", "application/json") jsonHeaders
    /\ decodeURIComponent encoded = Some (body svgResp).
Proof.
  intros Hsame Fsvg Fpng Hresp Hstatus.
  destruct (fetch_200 qrcode rsvg svgResp Hresp Hstatus) as [Hp [qr Hq]].
  destruct (values_but rpng rsvg "format" Hsame) as (A & B & C & D & E & F & _).
  specialize (A ltac:(discriminate)). specialize (B ltac:(discriminate)).
  specialize (C ltac:(discriminate)). specialize (D ltac:(discriminate)).
  specialize (E ltac:(discriminate)). specialize (F ltac:(discriminate)).
  assert (Hp' : allPass rpng).
  { intros c. pose proof (Hp c) as Hc.
    destruct c; cbn [fails] in *; try congruence.
    rewrite Fpng. reflexivity. }
  rewrite (fetch_all_pass qrcode rsvg Hp) in Hresp.
  rewrite (attempt_svg qrcode rsvg qr (Hp CheckEcLevel) Hq Fsvg) in Hresp.
  injection Hresp as <-.
  rewrite (fetch_all_pass qrcode rpng Hp').
  rewrite <- E, <- A in Hq.
  rewrite (attempt_png qrcode rpng qr (Hp' CheckEcLevel) Hq Fpng).
  rewrite B, C, D, F.
  eexists. cbv zeta. split; [reflexivity|].
  split; [apply stringify_dataUrl|]. split; [cbn; tauto|].
  apply decode_encode.
Qed.

Lemma C4_witness :
  exists encoded,
    let dataUrl := "data:image/svg+xml;charset=UTF-8," ++ encoded in
    responseOf (fetch stubQrcode [("size", "120"); ("format", "PNG")]) =
    Some {| status := 200;
            headers := jsonHeaders;
            body := stringifyDataUrl dataUrl |}
    /\ stringifyDataUrl dataUrl =
       "{" ++ dq ++ "dataUrl" ++ dq ++ ":" ++ dq ++ dataUrl ++ dq ++ "}"
    /\ In ("Content-Type", "application/json") jsonHeaders
    /\ decodeURIComponent encoded =
       Some (generateSVG stubMatrix (ofZ 120) "000000" "FFFFFF" (lit 4)).
Proof.
  apply (C4_png_wraps_svg stubQrcode
           [("size", "120"); ("format", "svg")]
           [("size", "120"); ("format", "PNG")]
           {| status := 200;
              headers := svgHeaders;
              body := generateSVG stubMatrix (ofZ 120) "000000" "FFFFFF" (lit 4) |}).
  - intros name _ Hn. cbn [get].
    destruct (String.eqb "size" name); [reflexivity|].
    destruct (String.eqb "format" name) eqn:E; [|reflexivity].
    apply String.eqb_eq in E. congruence.
  - reflexivity.
  - reflexivity.
  - rewrite (fetch_all_pass stubQrcode) by (intros c; destruct c; reflexivity).
    rewrite (attempt_svg stubQrcode _ stubMatrix) by reflexivity.
    reflexivity.
  - reflexivity.
Defined.


(** *** The rendered document *)




End Claims.

(** ** Further properties of the worker

    What the code shows besides the claims: the outcomes of [fetch] and the
    calls it makes, its headers, the reading of the query and of numeric
    values by [parseInt], the colours [isValidHexColor] accepts, and the
    drawing of [generateSVG]. *)

Module Extras.
Import JsNumber JsString Worker Props Coverage.
Import JsNumberFacts ControlFlow Parsing Encoding Rendering HandlerFacts Claims.
Local Open Scope string_scope.

(** X1.  Every request is answered 400, 500 or 200: 400 when some check
    fails, 500 when every check passes and the encoder throws, 200 when
    every check passes and the encoder returns a matrix. *)
Theorem X1_status_cases qrcode r :
  exists resp,
    responseOf (fetch qrcode r) = Some resp
    /\ ((status resp = 400%Z /\ exists c, fails c r = true)
        \/ (status resp = 500%Z /\ allPass r
            /\ exists e, qrcode (Some (ecLevelOf r)) (textOf r) = inl e)
        \/ (status resp = 200%Z /\ allPass r
            /\ exists qr, qrcode (Some (ecLevelOf r)) (textOf r) = inr qr)).
Proof.
  destruct (fails CheckSize r) eqn:E0;
    [|destruct (fails CheckColor r) eqn:E1;
      [|destruct (fails CheckEcLevel r) eqn:E2;
        [|destruct (fails CheckBorderWidth r) eqn:E3;
          [|destruct (fails CheckFormat r) eqn:E4]]]].
  1-5: rewrite fetch_checks, ?E0, ?E1, ?E2, ?E3, ?E4;
       eexists; split; [reflexivity|]; left; split; [reflexivity|]; eauto.
  assert (Hp : allPass r) by (intros c; destruct c; assumption).
  rewrite (fetch_all_pass qrcode r Hp).
  destruct (qrcode (Some (ecLevelOf r)) (textOf r)) as [e|qr] eqn:Eq.
  - rewrite (attempt_thrown qrcode r e E2 Eq).
    eexists; split; [reflexivity|]. right; left. eauto.
  - destruct (format_cases r E4) as [F|F].
    + rewrite (attempt_svg qrcode r qr E2 Eq F).
      eexists; split; [reflexivity|]. right; right. eauto.
    + rewrite (attempt_png qrcode r qr E2 Eq F).
      eexists; split; [reflexivity|]. right; right. eauto.
Qed.

Lemma level_valid r :
  fails CheckEcLevel r = false -> In (ecLevelOf r) ["L"; "M"; "Q"; "H"].
Proof.
  cbn [fails]. intros H. apply negb_false_iff in H.
  unfold includes in H. apply existsb_exists in H. destruct H as [x [Hin Hx]].
  apply String.eqb_eq in Hx. now subst x.
Qed.

(** X2.  The handler calls the encoder at most once and the renderer at
    most once.  It calls neither when a check fails.  When every check
    passes it calls the encoder once, with the text of the request and a
    level that is one of L, M, Q, H (never [undefined]), and then the
    renderer once if the encoder returned a matrix, not at all if it
    threw. *)
Theorem X2_calls qrcode r :
  (calls (fetch qrcode r) = [] /\ exists c, fails c r = true)
  \/ (allPass r
      /\ In (ecLevelOf r) ["L"; "M"; "Q"; "H"]
      /\ ((calls (fetch qrcode r) = [CallEncoder (Some (ecLevelOf r)) (textOf r)]
           /\ exists e, qrcode (Some (ecLevelOf r)) (textOf r) = inl e)
          \/ (calls (fetch qrcode r)
              = [CallEncoder (Some (ecLevelOf r)) (textOf r); CallGenerateSVG]
              /\ exists qr, qrcode (Some (ecLevelOf r)) (textOf r) = inr qr))).
Proof.
  destruct (fails CheckSize r) eqn:E0;
    [|destruct (fails CheckColor r) eqn:E1;
      [|destruct (fails CheckEcLevel r) eqn:E2;
        [|destruct (fails CheckBorderWidth r) eqn:E3;
          [|destruct (fails CheckFormat r) eqn:E4]]]].
  1-5: left; rewrite fetch_checks, ?E0, ?E1, ?E2, ?E3, ?E4; split; [reflexivity|]; eauto.
  right.
  assert (Hp : allPass r) by (intros c; destruct c; assumption).
  split; [exact Hp|]. split; [now apply level_valid|].
  rewrite (fetch_all_pass qrcode r Hp).
  destruct (qrcode (Some (ecLevelOf r)) (textOf r)) as [e|qr] eqn:Eq.
  - left. rewrite (attempt_thrown qrcode r e E2 Eq). split; [reflexivity|]. eauto.
  - right. destruct (format_cases r E4) as [F|F].
    + rewrite (attempt_svg qrcode r qr E2 Eq F). split; [reflexivity|]. eauto.
    + rewrite (attempt_png qrcode r qr E2 Eq F). split; [reflexivity|]. eauto.
Qed.


(** X3.  A 200 response carries the cache and CORS headers; it carries
    Content-Disposition, and the Content-Type image/svg+xml, exactly in the
    svg format, and the Content-Type application/json otherwise.  A 400 or
    500 response has one header, the Content-Type [text/plain;charset=UTF-8]
    that the constructor gives a string body: no cache header and no CORS
    header. *)
Theorem X3_headers qrcode r resp :
  responseOf (fetch qrcode r) = Some resp ->
  (status resp = 200%Z ->
     In ("Cache-Control", "public, max-age=86400") (headers resp)
     /\ In ("Access-Control-Allow-Origin", "*") (headers resp)
     /\ In ("Access-Control-Allow-Methods", "GET") (headers resp)
     /\ (formatOf r = "svg" ->
         In ("Content-Type", "image/svg+xml") (headers resp)
         /\ In ("Content-Disposition", "attachment; filename=" ++ dq ++ "qrcode.svg" ++ dq)
               (headers resp))
     /\ (formatOf r <> "svg" ->
         In ("Content-Type", "application/json") (headers resp)
         /\ forall v, ~ In ("Content-Disposition", v) (headers resp)))
  /\ (status resp <> 200%Z ->
      exists name,
        headers resp = [(name, "text/plain;charset=UTF-8")]
        /\ toLowerCase name = "content-type").
Proof.
  intros H.
  destruct (fails CheckSize r) eqn:E0;
    [|destruct (fails CheckColor r) eqn:E1;
      [|destruct (fails CheckEcLevel r) eqn:E2;
        [|destruct (fails CheckBorderWidth r) eqn:E3;
          [|destruct (fails CheckFormat r) eqn:E4]]]].
  1-5: rewrite fetch_checks, ?E0, ?E1, ?E2, ?E3, ?E4 in H;
       injection H as <-; split; [discriminate|];
       intros _; eexists; split; reflexivity.
  assert (Hp : allPass r) by (intros c; destruct c; assumption).
  rewrite (fetch_all_pass qrcode r Hp) in H.
  destruct (qrcode (Some (ecLevelOf r)) (textOf r)) as [e|qr] eqn:Eq.
  - rewrite (attempt_thrown qrcode r e E2 Eq) in H. injection H as <-.
    split; [discriminate|]. intros _. eexists. split; reflexivity.
  - destruct (format_cases r E4) as [F|F].
    + rewrite (attempt_svg qrcode r qr E2 Eq F) in H. injection H as <-.
      split; [|intros A; now elim A]. intros _.
      cbn [headers newResponse]. change (hasContentType svgHeaders) with true.
      cbn [svgHeaders In].
      repeat split; try tauto; intros A; congruence.
    + rewrite (attempt_png qrcode r qr E2 Eq F) in H. injection H as <-.
      split; [|intros A; now elim A]. intros _.
      cbn [headers newResponse]. change (hasContentType jsonHeaders) with true.
      cbn [jsonHeaders In].
      split; [tauto|]. split; [tauto|]. split; [tauto|].
      split; [intros A; rewrite F in A; discriminate A|].
      intros _. split; [tauto|].
      intros v [A|[A|[A|[A|[]]]]]; discriminate A.
Qed.

Lemma X3_witness :
  let r := [("format", "png")] in
  let r' := [("size", "50")] in
  (exists resp,
     responseOf (fetch stubQrcode r) = Some resp
     /\ status resp = 200%Z
     /\ In ("Cache-Control", "public, max-age=86400") (headers resp)
     /\ (forall v, ~ In ("Content-Disposition", v) (headers resp)))
  /\ (exists resp name,
        responseOf (fetch stubQrcode r') = Some resp
        /\ status resp = 400%Z
        /\ headers resp = [(name, "text/plain;charset=UTF-8")]).
Proof.
  intros r r'. split.
  - assert (E : responseOf (fetch stubQrcode r) =
                Some (newResponse
                        (stringifyDataUrl
                           ("data:image/svg+xml;charset=UTF-8,"
                            ++ encodeURIComponent
                                 (generateSVG stubMatrix (lit 300) "000000" "FFFFFF"
                                    (lit 4))))
                        None jsonHeaders)).
    { unfold r. rewrite (fetch_all_pass stubQrcode) by (intros c; destruct c; reflexivity).
      rewrite (attempt_png stubQrcode _ stubMatrix) by reflexivity. reflexivity. }
    eexists. split; [exact E|]. split; [reflexivity|].
    destruct (X3_headers stubQrcode r _ E) as [H _].
    destruct (H eq_refl) as (A & _ & _ & _ & B).
    split; [exact A|]. apply B. discriminate.
  - assert (E : responseOf (fetch stubQrcode r') = Some (rejection CheckSize))
      by reflexivity.
    destruct (X3_headers stubQrcode r' _ E) as [_ H].
    destruct (H ltac:(discriminate)) as [name [A _]].
    exists (rejection CheckSize), name.
    split; [exact E|]. split; [reflexivity | exact A].
Defined.

(** *** Case of the text parameters *)

Lemma lowerChar_not_upper c : inRange 65 90 (lowerChar c) = false.
Proof. each_char c; reflexivity. Qed.

Lemma toLowerCase_not_level v :
  includes ["L"; "M"; "Q"; "H"] (toLowerCase v) = false.
Proof.
  destruct v as [|c [|c2 v]]; try reflexivity.
  - cbn [toLowerCase]. pose proof (lowerChar_not_upper c) as H.
    each_char (lowerChar c); try reflexivity; discriminate H.
  - cbn [toLowerCase]. unfold includes. cbn [existsb].
    each_char (lowerChar c); reflexivity.
Qed.

(** X4.  The format is compared without regard to case, the
    error-correction level with regard to it.  Two requests whose format
    values have the same lower-case form, and that agree on the other
    parameters, get the same response.  An ecLevel value written in lower
    case fails the level check of any request that carries it: the request
    is answered 400 and nothing is encoded, with the message of the level
    when the size and the colours pass. *)
Theorem X4_case qrcode :
  (forall r1 r2 f1 f2,
     get "format" r1 = Some f1 -> get "format" r2 = Some f2 ->
     toLowerCase f1 = toLowerCase f2 ->
     (forall name, In name paramNames -> name <> "format" ->
                   get name r1 = get name r2) ->
     fetch qrcode r1 = fetch qrcode r2)
  /\ (forall r v,
        get "ecLevel" r = Some v -> v <> "" -> toLowerCase v = v ->
        fails CheckEcLevel r = true
        /\ (exists resp,
              responseOf (fetch qrcode r) = Some resp /\ status resp = 400%Z)
        /\ calls (fetch qrcode r) = []
        /\ (fails CheckSize r = false -> fails CheckColor r = false ->
            responseOf (fetch qrcode r) =
            Some (newResponse
                    ("Error: " ++ "Error correction level must be L, M, Q, or H")
                    (Some 400%Z) []))).
Proof.
  split.
  - intros r1 r2 f1 f2 G1 G2 Hl Hrest.
    destruct (values_but r1 r2 "format" Hrest) as (A & B & C & D & E & F & _).
    apply fetch_ext;
      first [apply A | apply B | apply C | apply D | apply E | apply F | idtac];
      try discriminate.
    unfold formatOf. rewrite G1, G2. cbn [option_map]. now rewrite Hl.
  - intros r v Gv Hne Hv.
    assert (Hf : fails CheckEcLevel r = true).
    { cbn [fails]. unfold ecLevelOf.
      rewrite Gv, (orElse_nonEmpty v _ Hne), <- Hv, toLowerCase_not_level.
      reflexivity. }
    split; [exact Hf|].
    destruct (first_failure_exists r CheckEcLevel Hf) as [c0 [_ [H0 Hb]]].
    rewrite (fetch_first_failure qrcode r c0 H0 Hb).
    split; [|split; [reflexivity|]].
    + exists (rejection c0). split; [reflexivity|]. reflexivity.
    + intros Hs Hc.
      assert (E : fetch qrcode r = ret (rejection CheckEcLevel)).
      { apply fetch_first_failure; [exact Hf|].
        intros c'. destruct c'; cbn [rank]; intros; try lia; assumption. }
      rewrite <- (fetch_first_failure qrcode r c0 H0 Hb), E. reflexivity.
Qed.

Lemma X4_witness :
  fetch stubQrcode [("format", "PnG"); ("ecLevel", "h")]
  = fetch stubQrcode [("ecLevel", "h"); ("format", "png")]
  /\ fails CheckEcLevel [("ecLevel", "h")] = true
  /\ responseOf (fetch stubQrcode [("ecLevel", "h")]) =
     Some (newResponse "Error: Error correction level must be L, M, Q, or H"
             (Some 400%Z) []).
Proof.
  destruct (X4_case stubQrcode) as [A B].
  split.
  - apply (A _ _ "PnG" "png"); try reflexivity.
    intros name Hin Hn. cbn in Hin.
    repeat (destruct Hin as [<- | Hin]; [first [reflexivity | congruence]|]).
    contradiction.
  - destruct (B [("ecLevel", "h")] "h" eq_refl ltac:(discriminate) eq_refl)
      as (F & _ & _ & R).
    split; [exact F|]. apply R; reflexivity.
Defined.


(** *** The numeric parameters *)

(** X5.  The border width range is inclusive at both ends: a borderWidth
    that is not empty fails its check when [parseInt] reads it as [NaN],
    and when [parseInt] reads it as the integer [z] it passes exactly when
    [0 <= z <= 20]. *)
Theorem X5_border_range r v :
  get "borderWidth" r = Some v -> v <> "" ->
  (parseInt v = NaN -> fails CheckBorderWidth r = true)
  /\ (forall z, parseInt v = ofZ z ->
        (fails CheckBorderWidth r = false <-> (0 <= z <= 20)%Z)).
Proof.
  intros Hg Hne. cbn [fails]. unfold borderWidthOf.
  rewrite Hg, (nonEmpty_some v Hne). split.
  - intros ->. reflexivity.
  - intros z ->. rewrite outside_ofZ by (cbn; lia).
    rewrite negb_false_iff, andb_true_iff, !Z.leb_le. tauto.
Qed.

Lemma X5_witness :
  fails CheckBorderWidth [("borderWidth", "0")] = false
  /\ fails CheckBorderWidth [("borderWidth", "20")] = false
  /\ fails CheckBorderWidth [("borderWidth", "21")] = true
  /\ fails CheckBorderWidth [("borderWidth", "-1")] = true
  /\ fails CheckBorderWidth [("borderWidth", "wide")] = true.
Proof.
  split; [|split; [|split; [|split]]].
  - apply (proj2 (X5_border_range [("borderWidth", "0")] "0" eq_refl ltac:(discriminate)) 0%Z);
      [reflexivity | lia].
  - apply (proj2 (X5_border_range [("borderWidth", "20")] "20" eq_refl ltac:(discriminate)) 20%Z);
      [reflexivity | lia].
  - apply not_false_iff_true. intros A.
    apply (proj2 (X5_border_range [("borderWidth", "21")] "21" eq_refl ltac:(discriminate))
             21%Z eq_refl) in A. lia.
  - apply not_false_iff_true. intros A.
    apply (proj2 (X5_border_range [("borderWidth", "-1")] "-1" eq_refl ltac:(discriminate))
             (-1)%Z eq_refl) in A. lia.
  - apply (proj1 (X5_border_range [("borderWidth", "wide")] "wide" eq_refl
                    ltac:(discriminate))). reflexivity.
Defined.

Lemma checked_number lo hi v d :
  (- 2 ^ 53 + 1 < lo)%Z -> (lo <= hi)%Z -> (hi < 2 ^ 53 - 1)%Z -> (lo <= d <= hi)%Z ->
  outside lo hi
    (match nonEmpty v with Some s => parseInt s | None => lit d end) = false ->
  exists z, match nonEmpty v with Some s => parseInt s | None => lit d end = lit z
            /\ (lo <= z <= hi)%Z.
Proof.
  intros Hlo Hle Hhi Hd H. destruct (nonEmpty v) as [s|].
  - destruct (parseInt_cases s) as [E | [z E]]; rewrite E in *.
    + discriminate H.
    + rewrite outside_ofZ in H by assumption.
      apply negb_false_iff, andb_true_iff in H. rewrite !Z.leb_le in H.
      exists z. split; [|exact H]. apply ofZ_exact. lia.
  - exists d. split; [reflexivity | exact Hd].
Qed.

(** X6.  The renderer only ever runs on checked options: when the
    response is 200, the size given to [generateSVG] is an integer of
    [100, 1000], the border width an integer of [0, 20], both colours are
    six hexadecimal digits, the matrix is the one the encoder returned for
    the text and level of the request, and in the svg format the body is
    the document rendered from them. *)
Theorem X6_renderer_input qrcode r resp :
  responseOf (fetch qrcode r) = Some resp -> status resp = 200%Z ->
  exists s b qr,
    sizeOf r = lit s /\ (100 <= s <= 1000)%Z
    /\ borderWidthOf r = lit b /\ (0 <= b <= 20)%Z
    /\ isValidHexColor (fgColorOf r) = true
    /\ isValidHexColor (bgColorOf r) = true
    /\ qrcode (Some (ecLevelOf r)) (textOf r) = inr qr
    /\ (formatOf r = "svg" ->
        body resp = generateSVG qr (lit s) (fgColorOf r) (bgColorOf r) (lit b)).
Proof.
  intros H Hs.
  destruct (fetch_200 qrcode r resp H Hs) as [Hp [qr Hq]].
  pose proof (Hp CheckSize) as P0. pose proof (Hp CheckColor) as P1.
  pose proof (Hp CheckBorderWidth) as P3. cbn [fails] in P0, P1, P3.
  destruct (checked_number 100 1000 (get "size" r) 300
              ltac:(cbn; lia) ltac:(lia) ltac:(cbn; lia) ltac:(lia) P0) as [s [Es Rs]].
  destruct (checked_number 0 20 (get "borderWidth" r) 4
              ltac:(cbn; lia) ltac:(lia) ltac:(cbn; lia) ltac:(lia) P3) as [b [Eb Rb]].
  apply orb_false_iff in P1. destruct P1 as [Pf Pb].
  apply negb_false_iff in Pf, Pb.
  exists s, b, qr. repeat split; try assumption; try lia.
  intros F. rewrite (fetch_all_pass qrcode r Hp) in H.
  rewrite (attempt_svg qrcode r qr (Hp CheckEcLevel) Hq F) in H.
  injection H as <-. cbn [body newResponse].
  fold (sizeOf r) in Es. fold (borderWidthOf r) in Eb. now rewrite Es, Eb.
Qed.

Lemma X6_witness :
  let r := [("size", "250px"); ("borderWidth", "2"); ("fgColor", "aB12cD")] in
  exists s b qr,
    sizeOf r = lit s /\ (100 <= s <= 1000)%Z
    /\ borderWidthOf r = lit b /\ (0 <= b <= 20)%Z
    /\ isValidHexColor (fgColorOf r) = true
    /\ isValidHexColor (bgColorOf r) = true
    /\ stubQrcode (Some (ecLevelOf r)) (textOf r) = inr qr
    /\ (formatOf r = "svg" ->
        body (newResponse (generateSVG stubMatrix (sizeOf r) (fgColorOf r) (bgColorOf r)
                             (borderWidthOf r)) None svgHeaders)
        = generateSVG qr (lit s) (fgColorOf r) (bgColorOf r) (lit b)).
Proof.
  intros r.
  apply (X6_renderer_input stubQrcode r).
  - unfold r. rewrite (fetch_all_pass stubQrcode) by (intros c; destruct c; reflexivity).
    rewrite (attempt_svg stubQrcode _ stubMatrix) by reflexivity. reflexivity.
  - reflexivity.
Defined.


Lemma digitValue_hex c : digitValue 16 c = hexValue c.
Proof. each_char c; reflexivity. Qed.

Lemma digitsPrefix_hex hs t :
  allChars isHexChar hs = true -> startsWithHexChar t = false ->
  digitsPrefix 16 (hs ++ t) =
  map (fun c => match hexValue c with Some v => v | None => 0%Z end)
      (list_ascii_of_string hs).
Proof.
  intros Hd Ht. induction hs as [|c hs IH].
  - cbn. destruct t as [|c r]; [reflexivity|].
    cbn [startsWithHexChar] in Ht. unfold isHexChar in Ht.
    cbn [digitsPrefix]. rewrite digitValue_hex.
    destruct (hexValue c); [discriminate Ht | reflexivity].
  - unfold allChars in Hd. cbn [list_ascii_of_string forallb] in Hd.
    apply andb_true_iff in Hd. destruct Hd as [Hc Hd].
    cbn [append digitsPrefix list_ascii_of_string map]. rewrite digitValue_hex.
    unfold isHexChar in Hc. destruct (hexValue c); [|discriminate Hc].
    f_equal. apply IH, Hd.
Qed.

Lemma valueOf_hex l acc :
  fold_left (fun a d => (a * 16 + d)%Z)
    (map (fun c => match hexValue c with Some v => v | None => 0%Z end) l) acc =
  fold_left
    (fun a c => (16 * a + match hexValue c with Some v => v | None => 0 end)%Z) l acc.
Proof.
  revert acc. induction l as [|c l IH]; intros acc; [reflexivity|].
  cbn [map fold_left]. rewrite IH. f_equal. lia.
Qed.

(** X7.  A size or borderWidth that opens with [0x] or [0X] is read in
    base 16: the hexadecimal digits that follow the prefix give the number,
    and what follows them is ignored. *)
Theorem X7_hexadecimal p hs t :
  p = "0x" \/ p = "0X" ->
  allChars isHexChar hs = true -> hs <> "" -> startsWithHexChar t = false ->
  parseInt (p ++ hs ++ t) = ofZ (hexStringValue hs).
Proof.
  intros Hp Hd Hne Ht.
  assert (E : parseInt (p ++ hs ++ t) =
              match digitsPrefix 16 (hs ++ t) with
              | [] => NaN
              | ds => ofZ (1 * valueOf 16 ds)
              end).
  { destruct Hp as [-> | ->]; unfold parseInt;
      change ("0x" ++ hs ++ t) with (String "0" (String "x" (hs ++ t)));
      change ("0X" ++ hs ++ t) with (String "0" (String "X" (hs ++ t)));
      rewrite (trimStart_digit "0" _ eq_refl); reflexivity. }
  rewrite E, (digitsPrefix_hex hs t Hd Ht).
  destruct hs as [|c hs]; [congruence|].
  cbn [list_ascii_of_string map]. f_equal. rewrite Z.mul_1_l.
  unfold valueOf, hexStringValue. cbn [list_ascii_of_string].
  exact (valueOf_hex (c :: list_ascii_of_string hs) 0%Z).
Qed.

Lemma X7_witness :
  parseInt "0x1F4" = ofZ 500
  /\ parseInt "0XfFpx" = ofZ 255.
Proof.
  split.
  - apply (X7_hexadecimal "0x" "1F4" "" (or_introl eq_refl) eq_refl ltac:(discriminate) eq_refl).
  - apply (X7_hexadecimal "0X" "fF" "px" (or_intror eq_refl) eq_refl ltac:(discriminate) eq_refl).
Defined.







Lemma parseInt_plain c t :
  isPlainChar c = true -> isSign c = false -> parseInt (String c t) = NaN.
Proof.
  each_char c; intros H S; try discriminate H; try discriminate S;
    destruct t as [|c2 [|c3 r3]]; reflexivity.
Qed.

Lemma parseInt_sign_plain sg c t :
  isSign sg = true -> isPlainChar c = true ->
  parseInt (String sg (String c t)) = NaN.
Proof.
  intros S H.
  assert (E : sg = "+"%char \/ sg = "-"%char).
  { revert S. each_char sg; intros S; try discriminate S; auto. }
  destruct E as [-> | ->]; revert H;
    each_char c; intros H; try discriminate H;
    destruct t as [|c3 r3]; reflexivity.
Qed.

(** X14.  A numeric parameter that does not start with a digit is not a
    number.  When the first character is a visible ASCII character other
    than a digit and a sign, or when such a character or a second sign
    follows a leading sign, [parseInt] gives [NaN] whatever comes after,
    and the value fails the size check and the borderWidth check. *)
Theorem X14_not_a_number c t v :
  isPlainChar c = true ->
  (v = String c t /\ isSign c = false)
  \/ (exists sg, isSign sg = true /\ v = String sg (String c t)) ->
  parseInt v = NaN
  /\ (forall r, get "size" r = Some v -> fails CheckSize r = true)
  /\ (forall r, get "borderWidth" r = Some v -> fails CheckBorderWidth r = true).
Proof.
  intros H Hv.
  assert (E : parseInt v = NaN).
  { destruct Hv as [[-> S] | [sg [S ->]]].
    - now apply parseInt_plain.
    - now apply parseInt_sign_plain. }
  assert (Hne : v <> "").
  { destruct Hv as [[-> _] | [sg [_ ->]]]; discriminate. }
  split; [exact E|]. split; intros r Hg; cbn [fails].
  - unfold sizeOf. rewrite Hg, (nonEmpty_some v Hne), E. reflexivity.
  - unfold borderWidthOf. rewrite Hg, (nonEmpty_some v Hne), E. reflexivity.
Qed.

Lemma X14_witness :
  parseInt "abc" = NaN
  /\ parseInt "--5" = NaN
  /\ fails CheckSize [("size", ".5")] = true
  /\ fails CheckBorderWidth [("borderWidth", "+x")] = true.
Proof.
  destruct (X14_not_a_number "a" "bc" "abc" eq_refl) as (A & _).
  { left. split; reflexivity. }
  destruct (X14_not_a_number "-" "5" "--5" eq_refl) as (B & _).
  { right. exists "-"%char. split; reflexivity. }
  destruct (X14_not_a_number "." "5" ".5" eq_refl) as (_ & C & _).
  { left. split; reflexivity. }
  destruct (X14_not_a_number "x" "" "+x" eq_refl) as (_ & _ & D).
  { right. exists "+"%char. split; reflexivity. }
  split; [exact A|]. split; [exact B|].
  split; [apply C; reflexivity | apply D; reflexivity].
Defined.


(** *** Colours *)

Lemma lowerChar_hex c : isHexDigit (lowerChar c) = isHexDigit c.
Proof. each_char c; reflexivity. Qed.

Lemma toLowerCase_length s : String.length (toLowerCase s) = String.length s.
Proof. induction s as [|c s IH]; [reflexivity|]. cbn. now rewrite IH. Qed.

Lemma toLowerCase_hex s :
  forallb isHexDigit (list_ascii_of_string (toLowerCase s))
  = forallb isHexDigit (list_ascii_of_string s).
Proof.
  induction s as [|c s IH]; [reflexivity|].
  cbn [toLowerCase list_ascii_of_string forallb]. now rewrite lowerChar_hex, IH.
Qed.

Lemma encodeChar_hex c : isHexDigit c = true -> encodeChar c = String c "".
Proof. each_char c; intros H; try discriminate H; reflexivity. Qed.

Lemma encode_hex s :
  forallb isHexDigit (list_ascii_of_string s) = true -> encodeURIComponent s = s.
Proof.
  induction s as [|c s IH]; [reflexivity|].
  cbn [list_ascii_of_string forallb]. intros H.
  apply andb_true_iff in H. destruct H as [Hc Hs].
  cbn [encodeURIComponent]. now rewrite (encodeChar_hex c Hc), (IH Hs).
Qed.

(** X9.  [isValidHexColor] does not depend on the case of the letters: a
    colour is accepted exactly when its lower-case form is.  An accepted
    colour has six characters, all of them hexadecimal digits (so no [#]),
    and percent-encoding leaves it as it is. *)
Theorem X9_hex_colour color :
  isValidHexColor (toLowerCase color) = isValidHexColor color
  /\ (isValidHexColor color = true ->
      String.length color = 6%nat
      /\ forallb isHexDigit (list_ascii_of_string color) = true
      /\ (forall rest, color <> String "#" rest)
      /\ encodeURIComponent color = color).
Proof.
  split.
  - unfold isValidHexColor. now rewrite toLowerCase_length, toLowerCase_hex.
  - unfold isValidHexColor. intros H. apply andb_true_iff in H. destruct H as [Hl Hd].
    apply Nat.eqb_eq in Hl. repeat split; try assumption.
    + intros rest ->. cbn in Hd. discriminate Hd.
    + now apply encode_hex.
Qed.

Lemma X9_witness :
  isValidHexColor "ff00ff" = isValidHexColor "FF00FF"
  /\ String.length "FF00ff" = 6%nat
  /\ encodeURIComponent "FF00ff" = "FF00ff".
Proof.
  destruct (X9_hex_colour "FF00FF") as [A _].
  destruct (X9_hex_colour "FF00ff") as [_ B].
  destruct (B eq_refl) as (L & _ & _ & E).
  split; [exact A|]. split; [exact L | exact E].
Defined.

(** *** The renderer at its edges *)

Lemma filter_none {A} (f : A -> bool) l :
  (forall x, In x l -> f x = false) -> filter f l = [].
Proof.
  induction l as [|x l IH]; intros H; [reflexivity|].
  cbn [filter]. rewrite (H x (or_introl eq_refl)). apply IH.
  intros y Hy. apply H. now right.
Qed.

(** X10.  A matrix without a dark module gives the opening tag, the
    background and the closing tag, and nothing else, whatever the size and
    the border are.  This covers the matrix without modules drawn with no
    border, where the module size is the quotient by zero, [Infinity], and
    is never printed. *)
Theorem X10_no_dark_module qr size fgColor bgColor borderWidth :
  (forall row col,
     (row < getModuleCount qr)%nat -> (col < getModuleCount qr)%nat ->
     isDark qr row col = false) ->
  generateSVG qr size fgColor bgColor borderWidth
  = svgOpen size ++ svgBackground bgColor ++ "</svg>"
  /\ (forall s, getModuleCount qr = 0%nat -> (0 < s)%Z ->
        moduleSizeOf qr (lit s) (lit 0) = PInf).
Proof.
  intros H. split.
  - rewrite generateSVG_structure.
    assert (E : darkCells qr = []).
    { unfold darkCells. apply filter_none. intros [row col] Hin.
      unfold cells in Hin. apply in_prod_iff in Hin. rewrite !in_seq in Hin.
      cbn [fst snd]. apply H; lia. }
    rewrite E. reflexivity.
  - intros s Hn Hs. unfold moduleSizeOf. rewrite Hn.
    change (add (ofNat 0) (mul (lit 2) (lit 0))) with (lit 0).
    unfold lit. cbn [div]. change (sgn (inject_Z 0)) with Eq.
    cbn [signedInf]. rewrite lit_pos by exact Hs. reflexivity.
Qed.

Lemma X10_witness :
  generateSVG emptyMatrix (lit 300) "000000" "FFFFFF" (lit 0)
  = svgOpen (lit 300) ++ svgBackground "FFFFFF" ++ "</svg>"
  /\ moduleSizeOf emptyMatrix (lit 300) (lit 0) = PInf.
Proof.
  destruct (X10_no_dark_module emptyMatrix (lit 300) "000000" "FFFFFF" (lit 0)) as [A B].
  - intros row col Hr. cbn in Hr. lia.
  - split; [exact A|]. apply B; [reflexivity | lia].
Defined.


(** *** Module coordinates *)

Local Open Scope Q_scope.

Lemma le_lit x y : le (lit x) (lit y) = (x <=? y)%Z.
Proof.
  unfold lit. cbn [le].
  destruct (Z.leb_spec x y) as [H|H].
  - apply Qle_bool_iff. rewrite <- Zle_Qle. exact H.
  - destruct (Qle_bool (inject_Z x) (inject_Z y)) eqn:E; [|reflexivity].
    apply Qle_bool_iff in E. rewrite <- Zle_Qle in E. lia.
Qed.

Lemma div_lit_exact s d k :
  (0 < d)%Z -> (- 2 ^ 53 < k < 2 ^ 53)%Z -> (s = k * d)%Z ->
  div (lit s) (lit d) = lit k.
Proof.
  intros Hd Hk ->. unfold lit. cbn [div]. rewrite lit_pos by exact Hd.
  rewrite (round_comp _ (inject_Z k)).
  - now apply round_int.
  - rewrite inject_Z_mult. field.
    intros H0. change 0 with (inject_Z 0) in H0.
    rewrite inject_Z_injective in H0. lia.
Qed.

(** X11.  When the size is a whole multiple [k] of the number of modules
    plus twice the border, the drawing is exact: a module is [k] units wide,
    the module at index [i] starts at [(i + borderWidth) * k], its far edge
    is where the next one starts, and every module lies between the two
    quiet zones. *)
Theorem X11_exact_tiling qr s b k :
  (100 <= s <= 1000)%Z -> (0 <= b <= 20)%Z ->
  (0 < getModuleCount qr)%nat ->
  (s = k * (Z.of_nat (getModuleCount qr) + 2 * b))%Z ->
  moduleSizeOf qr (lit s) (lit b) = lit k
  /\ forall i, (i < getModuleCount qr)%nat ->
       coordinate qr (lit s) (lit b) i = lit ((Z.of_nat i + b) * k)
       /\ add (coordinate qr (lit s) (lit b) i) (moduleSizeOf qr (lit s) (lit b))
          = lit ((Z.of_nat i + 1 + b) * k)
       /\ within (mul (lit b) (moduleSizeOf qr (lit s) (lit b)))
                 (mul (add (ofNat (getModuleCount qr)) (lit b))
                      (moduleSizeOf qr (lit s) (lit b)))
                 (coordinate qr (lit s) (lit b) i)
                 (moduleSizeOf qr (lit s) (lit b)) = true.
Proof.
  intros Hs Hb Hn Hk.
  set (n := Z.of_nat (getModuleCount qr)) in *.
  assert (Hn' : (0 < n)%Z) by (subst n; lia).
  assert (Hk1 : (1 <= k)%Z) by nia.
  assert (Hd : (n + 2 * b <= 1000)%Z) by nia.
  assert (Hk2 : (k <= 1000)%Z) by nia.
  assert (Hm : moduleSizeOf qr (lit s) (lit b) = lit k).
  { unfold moduleSizeOf. rewrite mul_lit by lia.
    rewrite ofNat_lit by (fold n; lia). fold n. rewrite add_lit by lia.
    apply div_lit_exact; lia. }
  split; [exact Hm|]. intros i Hi.
  assert (Hi' : (0 <= Z.of_nat i < n)%Z) by (subst n; lia).
  assert (Hx : coordinate qr (lit s) (lit b) i = lit ((Z.of_nat i + b) * k)).
  { unfold coordinate. rewrite Hm. rewrite ofNat_lit by lia.
    rewrite add_lit by lia. apply mul_lit. nia. }
  split; [exact Hx|]. rewrite Hx, Hm.
  assert (Hfar : add (lit ((Z.of_nat i + b) * k)) (lit k)
                 = lit ((Z.of_nat i + 1 + b) * k)).
  { rewrite add_lit by nia. f_equal. ring. }
  split; [exact Hfar|].
  unfold within. rewrite Hfar.
  rewrite ofNat_lit by (fold n; lia). fold n. rewrite add_lit by lia.
  rewrite !mul_lit by nia. rewrite !le_lit.
  apply andb_true_iff. split; apply Z.leb_le; nia.
Qed.

Lemma X11_witness :
  moduleSizeOf stubMatrix (lit 300) (lit 5) = lit 20
  /\ coordinate stubMatrix (lit 300) (lit 5) 4 = lit 180
  /\ add (coordinate stubMatrix (lit 300) (lit 5) 4)
         (moduleSizeOf stubMatrix (lit 300) (lit 5)) = lit 200.
Proof.
  destruct (X11_exact_tiling stubMatrix 300 5 20) as [A B];
    [lia | lia | cbn; lia | reflexivity |].
  destruct (B 4%nat) as (X & F & _); [cbn; lia|].
  split; [exact A|]. split; [exact X | exact F].
Defined.

(** X12.  For a valid size and border, the coordinates of the modules are
    strictly increasing in the index, roundings included: two different
    columns (or rows) never start at the same place. *)
Theorem X12_coordinates_increase qr s b i j :
  (100 <= s <= 1000)%Z -> (0 <= b <= 20)%Z ->
  (Z.of_nat (getModuleCount qr) + 2 * b < 2 ^ 52)%Z ->
  (i < j)%nat -> (j < getModuleCount qr)%nat ->
  lt (coordinate qr (lit s) (lit b) i) (coordinate qr (lit s) (lit b) j) = true.
Proof.
  intros Hs Hb Hc Hij Hj.
  set (n := Z.of_nat (getModuleCount qr)) in *.
  assert (Hc' : (n + 2 * b < 2 ^ 53)%Z) by lia.
  assert (Hn : (0 < n)%Z) by (subst n; lia).
  destruct (moduleSize_error qr s b Hs Hb Hc' Hn) as [m [Hm [Hnorm Hdm]]].
  assert (Hm0 : 0 < m) by (pose proof (pow2_pos (-1022)); lra).
  destruct (product_value qr b (Z.of_nat i + b) m ltac:(fold n; lia) Hnorm Hdm)
    as [x [Hx [_ [X2 _]]]].
  destruct (product_value qr b (Z.of_nat j + b) m ltac:(fold n; lia) Hnorm Hdm)
    as [y [Hy [_ [Y2 _]]]].
  assert (X1 : x - inject_Z (Z.of_nat i + b) * m
               <= inject_Z (Z.of_nat i + b) * m * pow2 (-53)).
  { destruct (product_value qr b (Z.of_nat i + b) m ltac:(fold n; lia) Hnorm Hdm)
      as [x' [Hx' [X1 _]]]. congruence. }
  rewrite (coordinate_value qr s b Hb Hc' i m) by (fold n; auto; lia).
  rewrite (coordinate_value qr s b Hb Hc' j m) by (fold n; auto; lia).
  rewrite Hx, Hy. cbn [lt].
  destruct (Qle_bool y x) eqn:E; [|reflexivity]. exfalso.
  apply Qle_bool_iff in E.
  set (e := pow2 (-53)) in *.
  set (a := inject_Z (Z.of_nat i + b) * m) in *.
  set (c := inject_Z (Z.of_nat j + b) * m) in *.
  assert (He : 0 < e) by apply pow2_pos.
  assert (Hac : a + m <= c).
  { unfold a, c.
    setoid_replace (inject_Z (Z.of_nat i + b) * m + m)
      with (inject_Z (Z.of_nat i + b + 1) * m)
      by (rewrite (inject_Z_plus _ 1); change (inject_Z 1) with 1; ring).
    apply Qmult_le_compat_r; [|lra]. rewrite <- Zle_Qle. lia. }
  assert (Hsum : inject_Z (Z.of_nat i + b + (Z.of_nat j + b)) * e < 1).
  { apply Qlt_le_trans with (pow2 53 * e).
    - apply Qmult_lt_compat_r; [exact He|].
      rewrite <- (pow2_inject 53) by lia. rewrite <- Zlt_Qlt. lia.
    - unfold e. rewrite <- pow2_add. change (pow2 (53 + -53)) with 1. lra. }
  assert (Hsm : (a + c) * e < m).
  { setoid_replace ((a + c) * e)
      with (inject_Z (Z.of_nat i + b + (Z.of_nat j + b)) * e * m)
      by (unfold a, c;
          rewrite (inject_Z_plus (Z.of_nat i + b) (Z.of_nat j + b)); ring).
    rewrite <- (Qmult_1_l m) at 2. apply Qmult_lt_compat_r; assumption. }
  lra.
Qed.

Lemma X12_witness :
  lt (coordinate (cornerMatrix) (lit 100) (lit 3) 19)
     (coordinate (cornerMatrix) (lit 100) (lit 3) 20) = true.
Proof.
  apply (X12_coordinates_increase cornerMatrix 100 3 19 20);
    [lia | lia | vm_compute; reflexivity | lia | cbn; lia].
Defined.


(** *** The characters of the output *)

Lemma allChars_app p a b : allChars p (a ++ b) = allChars p a && allChars p b.
Proof.
  unfold allChars. induction a as [|c a IH]; [reflexivity|].
  cbn [append list_ascii_of_string forallb]. now rewrite IH, andb_assoc.
Qed.

Lemma allChars_weaken (p p' : ascii -> bool) s :
  (forall c, p c = true -> p' c = true) ->
  allChars p s = true -> allChars p' s = true.
Proof.
  intros H. unfold allChars. induction s as [|c s IH]; [reflexivity|].
  cbn [list_ascii_of_string forallb]. intros A.
  apply andb_true_iff in A. destruct A as [A1 A2].
  apply andb_true_iff. split; [now apply H | now apply IH].
Qed.

Lemma uint_chars u : allChars isNumberChar (NilEmpty.string_of_uint u) = true.
Proof. induction u; cbn [NilEmpty.string_of_uint]; [reflexivity | exact IHu ..]. Qed.

Lemma decimal_chars z : allChars isNumberChar (decimal z) = true.
Proof.
  unfold decimal, NilZero.string_of_uint.
  destruct (N.to_uint (Z.to_N z)) eqn:E; try reflexivity;
    rewrite <- E; apply uint_chars.
Qed.

Lemma zeros_chars n : allChars isNumberChar (zeros n) = true.
Proof.
  unfold zeros. induction (Z.to_nat n) as [|k IH]; [reflexivity|]. exact IH.
Qed.

Lemma substring_chars p i len s :
  allChars p s = true -> allChars p (substring i len s) = true.
Proof.
  unfold allChars. revert i len.
  induction s as [|c s IH]; intros i len H.
  - destruct i, len; reflexivity.
  - cbn [list_ascii_of_string forallb] in H.
    apply andb_true_iff in H. destruct H as [H1 H2].
    destruct i as [|i]; destruct len as [|len]; cbn [substring]; try reflexivity.
    + cbn [list_ascii_of_string forallb]. rewrite H1. now apply IH.
    + now apply IH.
    + now apply IH.
Qed.

Lemma digitsFrom_chars i len z :
  allChars isNumberChar (digitsFrom i len (decimal z)) = true.
Proof. apply substring_chars, decimal_chars. Qed.

Ltac chars :=
  repeat (rewrite allChars_app; apply andb_true_intro; split);
  try reflexivity;
  auto using decimal_chars, zeros_chars, digitsFrom_chars.

Lemma toStringPos_chars q : allChars isNumberChar (toStringPos q) = true.
Proof.
  unfold toStringPos.
  destruct (shortest 17 q (ilog10 q + 1) 1) as [[s n] k].
  destruct ((-5 <=? n)%Z && (n <=? 21)%Z)%bool.
  - destruct (k <=? n)%Z; [chars|]. destruct (0 <? n)%Z; chars.
  - destruct (k =? 1)%Z; destruct (n <? 0)%Z; chars.
Qed.

Lemma toString_chars q : allChars isNumberChar (toString (Fin q)) = true.
Proof.
  cbn [toString]. destruct (q ?= 0)%Q; [reflexivity | | apply toStringPos_chars].
  chars. apply toStringPos_chars.
Qed.

Lemma numberChar_printable c : isNumberChar c = true -> isPrintable c = true.
Proof. each_char c; intros H; try discriminate H; reflexivity. Qed.

Lemma hexDigit_printable c : isHexDigit c = true -> isPrintable c = true.
Proof. each_char c; intros H; try discriminate H; reflexivity. Qed.

Lemma toString_printable x : allChars isPrintable (toString x) = true.
Proof.
  destruct x as [| | |q]; try reflexivity.
  apply (allChars_weaken isNumberChar); [exact numberChar_printable|].
  apply toString_chars.
Qed.

Lemma colour_printable color :
  isValidHexColor color = true -> allChars isPrintable color = true.
Proof.
  unfold isValidHexColor. intros H. apply andb_true_iff in H. destruct H as [_ H].
  apply (allChars_weaken isHexDigit); [exact hexDigit_printable | exact H].
Qed.

Lemma rects_printable qr size fgColor borderWidth l :
  allChars isPrintable fgColor = true ->
  allChars isPrintable
    (concatStrings (map (rectOf qr size fgColor borderWidth) l)) = true.
Proof.
  intros Hf. induction l as [|cell l IH]; [reflexivity|].
  cbn [map concatStrings]. rewrite allChars_app. apply andb_true_intro.
  split; [|exact IH].
  unfold rectOf, moduleRect.
  repeat (rewrite allChars_app; apply andb_true_intro; split);
    try reflexivity; auto using toString_printable.
Qed.

(** X13.  A drawing made with two accepted colours consists of printable
    ASCII characters only, whatever the matrix, the size and the border
    are.  The numbers in it are written with the digits, the point, the
    signs and the [e] of an exponent when they are finite. *)
Theorem X13_output_alphabet qr size fgColor bgColor borderWidth :
  isValidHexColor fgColor = true -> isValidHexColor bgColor = true ->
  allChars isPrintable (generateSVG qr size fgColor bgColor borderWidth) = true
  /\ (forall q, allChars isNumberChar (toString (Fin q)) = true).
Proof.
  intros Hf Hb. split; [|exact toString_chars].
  apply colour_printable in Hf. apply colour_printable in Hb.
  rewrite generateSVG_structure.
  rewrite !allChars_app.
  rewrite (rects_printable qr size fgColor borderWidth (darkCells qr) Hf).
  unfold svgOpen, svgBackground.
  repeat apply andb_true_intro; repeat split;
    repeat (rewrite allChars_app; apply andb_true_intro; split);
    try reflexivity; auto using toString_printable.
Qed.

Lemma X13_witness :
  allChars isPrintable (generateSVG stubMatrix (lit 300) "000000" "FFFFFF" (lit 4)) = true.
Proof.
  exact (proj1 (X13_output_alphabet stubMatrix (lit 300) "000000" "FFFFFF" (lit 4)
                  eq_refl eq_refl)).
Defined.


(** *** What the handler reads of the query *)

Lemma get_app name (r1 r2 : Request) :
  get name (r1 ++ r2)%list
  = match get name r1 with Some v => Some v | None => get name r2 end.
Proof.
  induction r1 as [|[k v] r1 IH]; [reflexivity|].
  cbn [app get]. now destruct (String.eqb k name).
Qed.

(** X15.  The handler reads the first value of each of its seven
    parameters and nothing else of the query: a pair whose name is none of
    the seven (names are compared exactly, so [Size] is such a name), and a
    pair that repeats a name already given, can be dropped without changing
    the outcome. *)
Theorem X15_first_value_only qrcode (r1 r2 : Request) k v :
  ~ In k paramNames \/ get k r1 <> None ->
  fetch qrcode (r1 ++ (k, v) :: r2)%list = fetch qrcode (r1 ++ r2)%list.
Proof.
  intros H.
  assert (E : forall name, In name paramNames ->
                get name (r1 ++ (k, v) :: r2)%list = get name (r1 ++ r2)%list).
  { intros name Hin. rewrite !get_app.
    destruct (get name r1) eqn:G; [reflexivity|].
    cbn [get]. destruct (String.eqb k name) eqn:Ek; [|reflexivity].
    apply String.eqb_eq in Ek. subst k.
    destruct H as [H | H]; [contradiction | congruence]. }
  destruct (values_ext (r1 ++ (k, v) :: r2)%list (r1 ++ r2)%list)
    as (A & B & C & D & F & G & I).
  { intros name Hin. now rewrite (E name Hin). }
  now apply fetch_ext.
Qed.

Lemma X15_witness :
  fetch stubQrcode [("size", "200"); ("size", "5000")] = fetch stubQrcode [("size", "200")]
  /\ fetch stubQrcode [("Size", "5000"); ("format", "png")]
     = fetch stubQrcode [("format", "png")].
Proof.
  split.
  - apply (X15_first_value_only stubQrcode [("size", "200")] [] "size" "5000").
    right. discriminate.
  - apply (X15_first_value_only stubQrcode [] [("format", "png")] "Size" "5000").
    left. cbn. intros [H|[H|[H|[H|[H|[H|[H|[]]]]]]]]; discriminate H.
Defined.

End Extras.
